(** * RAG-Chatbot frontend: conversation manager, chat window and uploader

    A shallow embedding of the React components of the repository
    ([Frontend/src/App.jsx], [Components/Chatwindow.jsx],
    [Components/Fileuploader.jsx]) and the properties of the conversation
    manager that the design document states about them.

    Conventions of the embedding.
    - A JavaScript string is the list of its UTF-16 code units.
    - An event handler is a computation in a small writer/exception monad:
      it emits, in program order, the calls it makes ([setState], [alert],
      [axios.post], ...) and either returns or throws.  A [setState] call
      carries an updater; the value form [setX(v)] is the constant updater, so
      a handler that runs after an [await] and passes a value computed from
      the variables of its own render is modelled with exactly the data it
      closes over.
    - [localStorage] is a finite map from keys to strings.
    - [JSON.parse] and [JSON.stringify] are builtins of the platform and are
      taken as an interface ([Platform]); a concrete instance is provided for
      closed examples. *)

From Stdlib Require Import NArith ZArith List Ascii String Bool Lia DecimalN.
From stdpp Require Import gmap strings list fin_maps.
Import ListNotations.

Set Warnings "-register-all".

(** ** JavaScript strings *)

Module JS.

Abbreviation jsstring := (list N).

(** The code units of an ASCII literal. *)
Definition str (s : string) : jsstring :=
  List.map N_of_ascii (list_ascii_of_string s).
#[global] Arguments str _%_string.

Definition between (lo hi c : N) : bool := (lo <=? c)%N && (c <=? hi)%N.

(** ECMAScript [WhiteSpace] and [LineTerminator] code points: what
    [String.prototype.trim] strips and what the regular expression class
    [\s] matches. *)
Definition is_whitespace (c : N) : bool :=
  between 9 13 c || (c =? 32)%N || (c =? 160)%N || (c =? 5760)%N
  || between 8192 8202 c || (c =? 8232)%N || (c =? 8233)%N
  || (c =? 8239)%N || (c =? 8287)%N || (c =? 12288)%N || (c =? 65279)%N.

Fixpoint trimStart (s : jsstring) : jsstring :=
  match s with
  | [] => []
  | c :: s' => if is_whitespace c then trimStart s' else s
  end.

Definition trimEnd (s : jsstring) : jsstring := rev (trimStart (rev s)).

Definition trim (s : jsstring) : jsstring := trimEnd (trimStart s).

(** Truthiness of a string: the empty string is the only falsy one. *)
Definition truthy (s : jsstring) : bool :=
  match s with [] => false | _ :: _ => true end.

(** [a || b] on an optional string ([None] is [undefined] or [null]). *)
Definition or_else (a : option jsstring) (b : jsstring) : jsstring :=
  match a with
  | Some s => if truthy s then s else b
  | None => b
  end.

Fixpoint digits (d : Decimal.uint) : jsstring :=
  match d with
  | Decimal.Nil => []
  | Decimal.D0 d => 48%N :: digits d
  | Decimal.D1 d => 49%N :: digits d
  | Decimal.D2 d => 50%N :: digits d
  | Decimal.D3 d => 51%N :: digits d
  | Decimal.D4 d => 52%N :: digits d
  | Decimal.D5 d => 53%N :: digits d
  | Decimal.D6 d => 54%N :: digits d
  | Decimal.D7 d => 55%N :: digits d
  | Decimal.D8 d => 56%N :: digits d
  | Decimal.D9 d => 57%N :: digits d
  end.

(** A non-negative integer interpolated in a template literal. *)
Definition decimal (n : N) : jsstring := digits (N.to_uint n).

(** JSON values, as [JSON.parse] returns them. *)
Inductive JSValue : Type :=
| JNull
| JBool (b : bool)
| JNum (n : Z)
| JStr (s : jsstring)
| JArr (items : list JSValue)
| JObj (fields : list (jsstring * JSValue)).

(** The two builtins the application calls.  [JSON_parse] is [None] where
    [JSON.parse] throws a [SyntaxError]. *)
Class Platform : Type := {
  JSON_parse : jsstring -> option JSValue;
  JSON_stringify : JSValue -> jsstring;
}.

(** A thrown value: [message] is [err.message], and [detail] is
    [err.response?.data?.detail], which only the rejection of a request
    whose response body has the field defines. *)
Record JSError : Type := {
  message : jsstring;
  detail : option jsstring;
}.

(** What reading a property of [undefined] throws. *)
Definition TypeError : JSError :=
  {| message := str "Cannot read properties of undefined"; detail := None |}.

End JS.
Import JS.

(** ** Data model *)

Record Source : Type := {
  source : jsstring;
  content : jsstring;
}.

(** [sources] is absent on user and error messages; [isError] is only ever
    written as [true] and is [false] here when the key is absent. *)
Record Message : Type := {
  text : jsstring;
  isUser : bool;
  timestamp : jsstring;
  sources : option (list Source);
  isError : bool;
}.

(** [name] is the chat name used for the remote index. *)
Record Conversation : Type := {
  id : jsstring;
  title : jsstring;
  name : jsstring;
  hasDocuments : bool;
  messages : list Message;
}.

#[global] Instance Source_eq_dec : EqDecision Source.
Proof. solve_decision. Defined.
#[global] Instance Message_eq_dec : EqDecision Message.
Proof. solve_decision. Defined.
#[global] Instance Conversation_eq_dec : EqDecision Conversation.
Proof. solve_decision. Defined.

(** *** The JSON image of the records (key order as the objects are built) *)

Module Json.

Definition of_source (s : Source) : JSValue :=
  JObj [(str "source", JStr (source s)); (str "content", JStr (content s))].

Definition of_message (m : Message) : JSValue :=
  JObj ([(str "text", JStr (text m));
         (str "isUser", JBool (isUser m));
         (str "timestamp", JStr (timestamp m))]
        ++ match sources m with
           | Some l => [(str "sources", JArr (List.map of_source l))]
           | None => []
           end
        ++ (if isError m then [(str "isError", JBool true)] else [])).

Definition of_conversation (c : Conversation) : JSValue :=
  JObj [(str "id", JStr (id c));
        (str "title", JStr (title c));
        (str "name", JStr (name c));
        (str "hasDocuments", JBool (hasDocuments c));
        (str "messages", JArr (List.map of_message (messages c)))].

Definition of_conversations (cs : list Conversation) : JSValue :=
  JArr (List.map of_conversation cs).

(** The typed reading of a parsed value: [Some] exactly on the image of the
    functions above.  Other values (foreign or legacy records) are outside
    the typed model of the application state. *)
Definition to_source (v : JSValue) : option Source :=
  match v with
  | JObj [(k1, JStr s); (k2, JStr c)] =>
      if bool_decide (k1 = str "source") && bool_decide (k2 = str "content")
      then Some {| source := s; content := c |}
      else None
  | _ => None
  end.

Definition to_message (v : JSValue) : option Message :=
  match v with
  | JObj ((k1, JStr t) :: (k2, JBool u) :: (k3, JStr ts) :: rest) =>
      if bool_decide (k1 = str "text") && bool_decide (k2 = str "isUser")
         && bool_decide (k3 = str "timestamp")
      then
        let mk srcs e :=
          {| text := t; isUser := u; timestamp := ts; sources := srcs;
             isError := e |} in
        match rest with
        | [] => Some (mk None false)
        | [(k4, JArr l)] =>
            if bool_decide (k4 = str "sources")
            then ss ← (mapM to_source l : option (list Source));
                 Some (mk (Some ss) false)
            else None
        | [(k4, JBool true)] =>
            if bool_decide (k4 = str "isError")
            then Some (mk None true)
            else None
        | [(k4, JArr l); (k5, JBool true)] =>
            if bool_decide (k4 = str "sources")
               && bool_decide (k5 = str "isError")
            then ss ← (mapM to_source l : option (list Source));
                 Some (mk (Some ss) true)
            else None
        | _ => None
        end
      else None
  | _ => None
  end.

Definition to_conversation (v : JSValue) : option Conversation :=
  match v with
  | JObj [(k1, JStr i); (k2, JStr t); (k3, JStr n); (k4, JBool h);
          (k5, JArr ms)] =>
      if bool_decide (k1 = str "id") && bool_decide (k2 = str "title")
         && bool_decide (k3 = str "name")
         && bool_decide (k4 = str "hasDocuments")
         && bool_decide (k5 = str "messages")
      then ms' ← (mapM to_message ms : option (list Message));
           Some {| id := i; title := t; name := n; hasDocuments := h;
                   messages := ms' |}
      else None
  | _ => None
  end.

Definition to_conversations (v : JSValue) : option (list Conversation) :=
  match v with
  | JArr l => mapM to_conversation l
  | _ => None
  end.

End Json.

(** ** Handlers as computations *)

Module React.

Definition File : Type := jsstring.

Inductive Request : Type :=
| UploadRequest (file : File) (chat_id : jsstring) (chat_name : option jsstring)
| QueryRequest (question chat_id : jsstring) (chat_name : option jsstring)
| ResetRequest (chat_id : jsstring).

(** What a handler can do besides computing: the calls it makes, in program
    order.  [SetConversations] and [SetMessages] carry the updater that React
    applies to the state current when the update is processed. *)
Inductive Cmd : Type :=
| Alert (message : jsstring)
| ConsoleError (label : jsstring)
| SetConversations (updater : list Conversation -> list Conversation)
| SetActiveConversationId (value : jsstring)
| SetInput (value : jsstring)
| SetMessages (updater : list Message -> list Message)
| SetIsLoading (value : bool)
| SetFile (value : option File)
| SetUploading (value : bool)
| SetMessage (value : jsstring)
| SetError (value : jsstring)
| ResetFileInput
| SetTimeout (callback : Cmd) (delay : N)
| Post (request : Request).

(** The calls made so far, and the value returned or the error thrown. *)
Definition M (A : Type) : Type := (list Cmd * (A + JSError))%type.

Definition ret {A} (a : A) : M A := ([], inl a).

Definition bind {A B} (m : M A) (k : A -> M B) : M B :=
  match m with
  | (c1, inl a) => let '(c2, r) := k a in (c1 ++ c2, r)
  | (c1, inr e) => (c1, inr e)
  end.

#[global] Instance M_ret : MRet M := @ret.
#[global] Instance M_bind : MBind M := fun A B k m => bind m k.

Definition emit (c : Cmd) : M unit := ([c], inl tt).

Definition throw {A} (e : JSError) : M A := ([], inr e).

(** [try { body } catch (err) { handler err }] *)
Definition try_catch {A} (body : M A) (handler : JSError -> M A) : M A :=
  match body with
  | (c1, inr e) => let '(c2, r) := handler e in (c1 ++ c2, r)
  | returned => returned
  end.

(** [try { body } finally { cleanup }] *)
Definition try_finally {A} (body : M A) (cleanup : M unit) : M A :=
  let '(c1, r) := body in
  match cleanup with
  | (c2, inl _) => (c1 ++ c2, r)
  | (c2, inr e) => (c1 ++ c2, inr e)
  end.

(** [await p], resumed with the settlement of [p]. *)
Definition await {A} (settled : A + JSError) : M A :=
  match settled with
  | inl a => ret a
  | inr e => throw e
  end.

Definition calls {A} (m : M A) : list Cmd := fst m.
Definition outcome {A} (m : M A) : A + JSError := snd m.

Definition returns {A} (m : M A) : bool :=
  match outcome m with inl _ => true | inr _ => false end.

End React.
Import React.

(** ** [App.jsx] *)

(** The two state variables of [App], as one render sees them. *)
Record AppState : Type := {
  conversations : list Conversation;
  activeConversationId : jsstring;
}.

Module App.

Definition default_conversation (now : N) : Conversation :=
  {| id := str "chat_" ++ decimal now;
     title := str "New Chat";
     name := str "default";
     hasDocuments := false;
     messages := [] |}.

(** Initializer of [conversations] (lines 12-28); [saved] is
    [localStorage.getItem('rag_conversations')] and [now] is [Date.now()].
    Whatever [JSON.parse] returns is the initial state. *)
Definition conversations_initializer `{Platform}
    (saved : option jsstring) (now : N) : JSValue :=
  let fallback := Json.of_conversations [default_conversation now] in
  match saved with
  | Some s =>
      if truthy s then
        match JSON_parse s with
        | Some v => v
        | None => fallback
        end
      else fallback
  | None => fallback
  end.

(** Initializer of [activeConversationId] (lines 30-33):
    [saved || conversations[0].id]. *)
Definition activeConversationId_initializer
    (saved : option jsstring) (conversations : list Conversation)
    : jsstring + JSError :=
  let first :=
    match conversations with
    | c :: _ => inl (id c)
    | [] => inr TypeError
    end in
  match saved with
  | Some s => if truthy s then inl s else first
  | None => first
  end.

(** The regular expression [/[^a-zA-Z0-9\s\-_]/g] matches the code units
    that are NOT kept. *)
Definition kept (c : N) : bool :=
  between 97 122 c || between 65 90 c || between 48 57 c
  || is_whitespace c || (c =? 45)%N || (c =? 95)%N.

(** [chatName.trim().replace(/[^a-zA-Z0-9\s\-_]/g, '')] *)
Definition sanitize (chatName : jsstring) : jsstring :=
  List.filter kept (trim chatName).

Definition with_hasDocuments (b : bool) (c : Conversation) : Conversation :=
  {| id := id c; title := title c; name := name c; hasDocuments := b;
     messages := messages c |}.

Definition with_messages (ms : list Message) (c : Conversation)
    : Conversation :=
  {| id := id c; title := title c; name := name c;
     hasDocuments := hasDocuments c; messages := ms |}.

Section Render.
(** The state variables a handler of this render closes over. *)
Variable conversations : list Conversation.
Variable activeConversationId : jsstring.

Definition activeConversation : option Conversation :=
  List.find (fun c => bool_decide (id c = activeConversationId))
            conversations.

(** [chatName] is what [prompt] returned ([None]: cancelled), [now] is
    [Date.now()], [rnd] is [Math.random().toString(36).substr(2, 9)]. *)
Definition createConversation
    (chatName : option jsstring) (now : N) (rnd : jsstring) : M unit :=
  let required := emit (Alert (str "Chat name is required!")) in
  match chatName with
  | None => required
  | Some chatName =>
      if negb (truthy chatName) || negb (truthy (trim chatName)) then
        required
      else
        let sanitizedName := sanitize chatName in
        if negb (truthy sanitizedName) then
          emit (Alert (str "Invalid chat name. Please use letters, numbers, spaces, hyphens, or underscores."))
        else
          let newConv :=
            {| id := str "chat-" ++ decimal now ++ str "-" ++ rnd;
               title := sanitizedName;
               name := sanitizedName;
               hasDocuments := false;
               messages := [] |} in
          emit (SetConversations (fun _ => conversations ++ [newConv]));;
          emit (SetActiveConversationId (id newConv))
  end.

Definition deleteConversation (id' : jsstring) : M unit :=
  if (length conversations =? 1)%nat then
    emit (Alert (str "Cannot delete the last conversation"))
  else
    let filtered :=
      List.filter (fun c => negb (bool_decide (id c = id'))) conversations in
    emit (SetConversations (fun _ => filtered));;
    if bool_decide (activeConversationId = id') then
      match filtered with
      | c :: _ => emit (SetActiveConversationId (id c))
      | [] => throw TypeError
      end
    else ret tt.

(** The argument [data] is not used. *)
Definition handleUploadSuccess : M unit :=
  emit (SetConversations (fun _ =>
    List.map (fun c =>
      if bool_decide (id c = activeConversationId)
      then with_hasDocuments true c
      else c) conversations)).

(** [handleResetSystem] up to its [await]; [confirmed] is what
    [window.confirm] returned. *)
Definition handleResetSystem (confirmed : bool) : M unit :=
  if negb confirmed then ret tt
  else emit (Post (ResetRequest activeConversationId)).

(** The rest of [handleResetSystem], run when the request settles. *)
Definition handleResetSystem_resume (settled : unit + JSError) : M unit :=
  try_catch
    (await settled;;
     emit (SetConversations (fun _ =>
       List.map (fun c =>
         if bool_decide (id c = activeConversationId)
         then with_messages [] (with_hasDocuments false c)
         else c) conversations)))
    (fun err =>
       emit (ConsoleError (str "Error resetting:"));;
       emit (Alert (str "Failed to reset: "
                    ++ or_else (detail err) (message err)))).
End Render.

(** Uses the functional form of the setter: no state variable is read. *)
Definition addMessageToConversation (chatId : jsstring) (message : Message)
    : M unit :=
  emit (SetConversations (fun prevConvs =>
    List.map (fun c =>
      if bool_decide (id c = chatId)
      then with_messages (messages c ++ [message]) c
      else c) prevConvs)).

End App.

(** ** [Components/Fileuploader.jsx] *)

Module FileUploader.

Inductive Variant : Type := full | icon.

(** [response.data] of a successful [POST /upload]. *)
Record UploadData : Type := {
  data_message : jsstring;
  chunks : N;
}.

Section Component.
(** Props. *)
Variable chatId : jsstring.
Variable chatName : option jsstring.
Variable onUploadSuccess : option (M unit).
Variable variant : Variant.
(** State. *)
Variable file : option File.

(** [uploadFile] up to its [await]. *)
Definition uploadFile (fileToUpload : option File) : M unit :=
  match fileToUpload with
  | None => emit (SetError (str "Please select a file first"))
  | Some f =>
      emit (SetUploading true);;
      emit (SetMessage []);;
      emit (SetError []);;
      emit (Post (UploadRequest f chatId
                    (match chatName with
                     | Some n => if truthy n then Some n else None
                     | None => None
                     end)))
  end.

(** The rest of [uploadFile], run when the request settles. *)
Definition uploadFile_resume (settled : UploadData + JSError) : M unit :=
  try_finally
    (try_catch
       (data ← await settled;
        emit (SetMessage ([10003%N; 32%N] ++ data_message data ++ str " ("
                          ++ decimal (chunks data)
                          ++ str " chunks processed)"));;
        emit (SetFile None);;
        emit ResetFileInput;;
        match onUploadSuccess with
        | Some callback => callback
        | None => ret tt
        end;;
        emit (SetTimeout (SetMessage []) 5000))
       (fun err =>
          emit (SetError
                  (or_else (detail err)
                     (str "Error uploading file. Please try again.")));;
          emit (SetTimeout (SetError []) 5000)))
    (emit (SetUploading false)).

Definition handleFileChange (selectedFile : option File) : M unit :=
  emit (SetFile selectedFile);;
  emit (SetMessage []);;
  emit (SetError []);;
  match variant, selectedFile with
  | icon, Some _ => uploadFile selectedFile
  | _, _ => ret tt
  end.

Definition handleUpload : M unit := uploadFile file.
End Component.

End FileUploader.

(** ** [Components/Chatwindow.jsx] *)

Module ChatWindow.

(** [response.data] of a successful [POST /query]. *)
Record QueryData : Type := {
  answer : jsstring;
  data_sources : option (list Source);
}.

(** The state variables of the component. *)
Record State : Type := {
  input : jsstring;
  messages : list Message;
  isLoading : bool;
}.

Definition mount (initialMessages : list Message) : State :=
  {| input := []; messages := initialMessages; isLoading := false |}.



(** The component's own setters applied to its state; every other call
    leaves it as it is.  [run] is what the calls of one handler do to the
    state variables; when the handler also sets state of [App], the render
    that follows runs the effect above ([rerender]). *)
Definition apply (s : State) (c : Cmd) : State :=
  match c with
  | SetInput v =>
      {| input := v; messages := messages s; isLoading := isLoading s |}
  | SetMessages f =>
      {| input := input s; messages := f (messages s);
         isLoading := isLoading s |}
  | SetIsLoading v =>
      {| input := input s; messages := messages s; isLoading := v |}
  | _ => s
  end.

Definition run (cs : list Cmd) (s : State) : State := fold_left apply cs s.

Section Component.
(** Props. *)
Variable chatId : jsstring.
Variable chatName : option jsstring.
Variable hasDocuments : bool.
Variable onAddMessage : option (jsstring -> Message -> M unit).
(** State. *)
Variable input : jsstring.
Variable isLoading : bool.

Definition notify (message : Message) : M unit :=
  match onAddMessage with
  | Some callback => callback chatId message
  | None => ret tt
  end.

(** [handleSend] up to its [await]; [now] is [new Date().toISOString()]. *)
Definition handleSend (now : jsstring) : M unit :=
  if negb (truthy (trim input)) || negb hasDocuments || isLoading then
    ret tt
  else
    let userMessage :=
      {| text := trim input; isUser := true; timestamp := now;
         sources := None; isError := false |} in
    emit (SetMessages (fun prev => prev ++ [userMessage]));;
    notify userMessage;;
    emit (SetInput []);;
    emit (SetIsLoading true);;
    emit (Post (QueryRequest (text userMessage) chatId chatName)).

(** The rest of [handleSend], run when the request settles. *)
Definition handleSend_resume (settled : QueryData + JSError)
    (now : jsstring) : M unit :=
  try_finally
    (try_catch
       (data ← await settled;
        let botMessage :=
          {| text := answer data; isUser := false; timestamp := now;
             sources := Some (default [] (data_sources data));
             isError := false |} in
        emit (SetMessages (fun prev => prev ++ [botMessage]));;
        notify botMessage)
       (fun err =>
          emit (ConsoleError (str "Error querying:"));;
          let errorMessage :=
            {| text :=
                 or_else (detail err)
                   (str "Sorry, I encountered an error. Please try again.");
               isUser := false; timestamp := now; sources := None;
               isError := true |} in
          emit (SetMessages (fun prev => prev ++ [errorMessage]));;
          notify errorMessage))
    (emit (SetIsLoading false)).

Definition handleKeyPress (key : jsstring) (shiftKey : bool)
    (now : jsstring) : M unit :=
  if bool_decide (key = str "Enter") && negb shiftKey
  then handleSend now
  else ret tt.

(** [confirmed] is what [window.confirm] returned. *)
Definition handleClearChat (confirmed : bool) : M unit :=
  if confirmed then emit (SetMessages (fun _ => [])) else ret tt.
End Component.

End ChatWindow.

(** ** [Components/MessageBubble.jsx] *)

Module MessageBubble.

(** The class [\w] of a regular expression. *)
Definition is_word (c : N) : bool :=
  between 97 122 c || between 65 90 c || between 48 57 c || (c =? 95)%N.

(** The longest prefix of word characters: what [(\w+)] takes. *)
Fixpoint word_prefix (s : jsstring) : jsstring :=
  match s with
  | c :: s' => if is_word c then c :: word_prefix s' else []
  | [] => []
  end.

(** The rest of [s] after the literal [p], when [s] starts with it. *)
Fixpoint after_literal (p s : jsstring) : option jsstring :=
  match p, s with
  | [], _ => Some s
  | a :: p', b :: s' => if (a =? b)%N then after_literal p' s' else None
  | _ :: _, [] => None
  end.

(** [/language-(\w+)/.exec(s)]: the group of the leftmost match. *)
Fixpoint exec_language (s : jsstring) : option jsstring :=
  match s with
  | [] => None
  | _ :: rest =>
      match after_literal (str "language-") s with
      | Some after =>
          match word_prefix after with
          | [] => exec_language rest
          | c :: w => Some (c :: w)
          end
      | None => exec_language rest
      end
  end.

(** [String(children).replace(/\n$/, '')] *)
Definition drop_final_newline (children : jsstring) : jsstring :=
  match rev children with
  | c :: r => if (c =? 10)%N then rev r else children
  | [] => children
  end.

(** What the [code] component of the markdown renderer returns. *)
Inductive Code : Type :=
| SyntaxHighlighter (language : jsstring) (children : jsstring)
| PlainCode (children : jsstring).

Definition code (inline : bool) (className : option jsstring)
    (children : jsstring) : Code :=
  match exec_language (or_else className []) with
  | Some language =>
      if negb inline
      then SyntaxHighlighter language (drop_final_newline children)
      else PlainCode children
  | None => PlainCode children
  end.

Inductive Body : Type :=
| Preformatted (text : jsstring)
| Markdown (text : jsstring).

(** What the bubble shows: on which side, under which label, the text, the
    sources of the collapsible list (none when the list is not rendered) and
    whether the error line is rendered. *)
Record View : Type := {
  right_aligned : bool;
  label : jsstring;
  body : Body;
  shown_sources : option (list Source);
  error_line : bool;
}.

(** The component; [isUser] is a prop of its own. *)
Definition MessageBubble (message : Message) (isUser : bool) : View :=
  {| right_aligned := isUser;
     label := if isUser then str "You"
              else [55358%N; 56598%N; 32%N] ++ str "AI Assistant";
     body := if isUser then Preformatted (text message)
             else Markdown (text message);
     shown_sources :=
       if negb isUser then
         match sources message with
         | Some (s :: l) => Some (s :: l)
         | _ => None
         end
       else None;
     error_line := isError message |}.

End MessageBubble.

(** ** What the components render *)

Module Jsx.

(** [ChatWindow], lines 266-268: one bubble per message of the list, under
    the key [`${msg.timestamp}-${idx}`]. *)
Definition bubbles (messages : list Message)
    : list (jsstring * MessageBubble.View) :=
  imap (fun idx msg =>
          (timestamp msg ++ str "-" ++ decimal (N.of_nat idx),
           MessageBubble.MessageBubble msg (isUser msg))) messages.

(** [ChatWindow], line 317: [disabled] of the Send button. *)
Definition send_disabled (input : jsstring) (isLoading hasDocuments : bool)
    : bool :=
  isLoading || negb (truthy (trim input)) || negb hasDocuments.


(** [FileUploader], line 129: [disabled] of the Upload button. *)
Definition upload_disabled (file : option File) (uploading : bool) : bool :=
  match file with None => true | Some _ => false end || uploading.

End Jsx.

(** ** The running application *)

Module World.

(** A request in flight, with the [chat_id] it carries and what its
    continuation closes over: for an upload, the render whose
    [onUploadSuccess] the uploader was given; for a reset, the render whose
    [handleResetSystem] was clicked. *)
Inductive Pending : Type :=
| PendingQuery (chat_id : jsstring)
| PendingUpload (chat_id : jsstring) (render : AppState)
| PendingReset (chat_id : jsstring) (render : AppState).

(** The state of [App], what is persisted, the requests in flight, and the
    two flags that gate requests: [isLoading] is the state variable of
    [ChatWindow] and [uploading] that of [FileUploader] (both components stay
    mounted when the active chat changes).  The text of the input box comes
    with the event that sends it, and the list that the chat window shows is
    studied on [ChatWindow.State].  [uploaded] is a history variable: the
    chats for which an upload has succeeded. *)
Record State : Type := {
  app : AppState;
  isLoading : bool;
  uploading : bool;
  localStorage : gmap string jsstring;
  pending : list Pending;
  uploaded : list jsstring;
}.

Definition with_app (a : AppState) (w : State) : State :=
  {| app := a; isLoading := isLoading w; uploading := uploading w;
     localStorage := localStorage w; pending := pending w;
     uploaded := uploaded w |}.

Definition with_localStorage (ls : gmap string jsstring) (w : State) : State :=
  {| app := app w; isLoading := isLoading w; uploading := uploading w;
     localStorage := ls; pending := pending w; uploaded := uploaded w |}.

Definition with_pending (p : list Pending) (w : State) : State :=
  {| app := app w; isLoading := isLoading w; uploading := uploading w;
     localStorage := localStorage w; pending := p; uploaded := uploaded w |}.

Definition with_uploaded (u : list jsstring) (w : State) : State :=
  {| app := app w; isLoading := isLoading w; uploading := uploading w;
     localStorage := localStorage w; pending := pending w; uploaded := u |}.

(** One queued state update, applied to the current state. *)
Definition apply (w : State) (c : Cmd) : State :=
  match c with
  | SetConversations f =>
      with_app {| conversations := f (conversations (app w));
                  activeConversationId := activeConversationId (app w) |} w
  | SetActiveConversationId v =>
      with_app {| conversations := conversations (app w);
                  activeConversationId := v |} w
  | SetIsLoading v =>
      {| app := app w; isLoading := v; uploading := uploading w;
         localStorage := localStorage w; pending := pending w;
         uploaded := uploaded w |}
  | SetUploading v =>
      {| app := app w; isLoading := isLoading w; uploading := v;
         localStorage := localStorage w; pending := pending w;
         uploaded := uploaded w |}
  | _ => w
  end.

Definition sets_conversations (c : Cmd) : bool :=
  match c with SetConversations _ => true | _ => false end.

Definition request (c : Cmd) : list Request :=
  match c with Post r => [r] | _ => [] end.

(** A request made by a handler of [render], as it is in flight. *)
Definition in_flight (render : AppState) (r : Request) : Pending :=
  match r with
  | QueryRequest _ chat_id _ => PendingQuery chat_id
  | UploadRequest _ chat_id _ => PendingUpload chat_id render
  | ResetRequest chat_id => PendingReset chat_id render
  end.

(** Props that [App] passes to [ChatWindow] (lines 194-203). *)
Definition chatName (r : AppState) : option jsstring :=
  name <$> App.activeConversation (conversations r) (activeConversationId r).

Definition hasDocuments_prop (r : AppState) : bool :=
  default false
    (hasDocuments
       <$> App.activeConversation (conversations r) (activeConversationId r)).

Definition initialMessages (r : AppState) : list Message :=
  default []
    (messages
       <$> App.activeConversation (conversations r) (activeConversationId r)).

Definition listed (id' : jsstring) (cs : list Conversation) : bool :=
  existsb (fun c => bool_decide (id c = id')) cs.

(** What the user and the network can do.  [Send] carries the text of the
    input box; [k] is the position of the settled request in [pending]. *)
Inductive Event : Type :=
| ClickNewChat (chatName : option jsstring) (now : N) (rnd : jsstring)
| ClickDelete (id' : jsstring)
| ClickConversation (id' : jsstring)
| Send (input : jsstring) (now : jsstring)
| ClickClearChat (confirmed : bool)
| SelectFile (selectedFile : option File)
| ClickReset (confirmed : bool)
| QuerySettled (k : nat) (settled : ChatWindow.QueryData + JSError)
               (now : jsstring)
| UploadSettled (k : nat) (settled : FileUploader.UploadData + JSError)
| ResetSettled (k : nat) (settled : unit + JSError).

(** The request that [e] settles leaves [pending]; a successful upload
    enters the history. *)
Definition settle (e : Event) (w : State) : State :=
  match e with
  | QuerySettled k _ _ =>
      match pending w !! k with
      | Some (PendingQuery _) => with_pending (delete k (pending w)) w
      | _ => w
      end
  | UploadSettled k settled =>
      match pending w !! k with
      | Some (PendingUpload chat_id _) =>
          let w1 := with_pending (delete k (pending w)) w in
          match settled with
          | inl _ => with_uploaded (chat_id :: uploaded w1) w1
          | inr _ => w1
          end
      | _ => w
      end
  | ResetSettled k _ =>
      match pending w !! k with
      | Some (PendingReset _ _) => with_pending (delete k (pending w)) w
      | _ => w
      end
  | _ => w
  end.

(** The handler that [e] runs in state [w], with the props and state
    variables of the render it belongs to: the current one for what the
    user does, the one that issued the request for a continuation. *)
Definition handler (e : Event) (w : State) : M unit :=
  let r := app w in
  match e with
  | ClickNewChat chatName now rnd =>
      App.createConversation (conversations r) chatName now rnd
  | ClickDelete id' =>
      (* the button is rendered for each listed conversation when
         [conversations.length > 1] *)
      if (1 <? length (conversations r))%nat && listed id' (conversations r)
      then App.deleteConversation (conversations r) (activeConversationId r) id'
      else ret tt
  | ClickConversation id' =>
      if listed id' (conversations r)
      then emit (SetActiveConversationId id')
      else ret tt
  | Send input now =>
      ChatWindow.handleSend (activeConversationId r) (chatName r)
        (hasDocuments_prop r) (Some App.addMessageToConversation)
        input (isLoading w) now
  | ClickClearChat confirmed => ChatWindow.handleClearChat confirmed
  | SelectFile selectedFile =>
      (* the file input is disabled while [uploading] *)
      if uploading w then ret tt
      else FileUploader.handleFileChange (activeConversationId r) (chatName r)
             FileUploader.icon selectedFile
  | ClickReset confirmed =>
      App.handleResetSystem (activeConversationId r) confirmed
  | QuerySettled k settled now =>
      match pending w !! k with
      | Some (PendingQuery chat_id) =>
          ChatWindow.handleSend_resume chat_id
            (Some App.addMessageToConversation) settled now
      | _ => ret tt
      end
  | UploadSettled k settled =>
      match pending w !! k with
      | Some (PendingUpload _ r') =>
          FileUploader.uploadFile_resume
            (Some (App.handleUploadSuccess
                     (conversations r') (activeConversationId r')))
            settled
      | _ => ret tt
      end
  | ResetSettled k settled =>
      match pending w !! k with
      | Some (PendingReset _ r') =>
          App.handleResetSystem_resume
            (conversations r') (activeConversationId r') settled
      | _ => ret tt
      end
  end.

(** The requests that handling [e] in [w] sends. *)
Definition requests (e : Event) (w : State) : list Request :=
  flat_map request (calls (handler e w)).

Section Effects.
Context `{Platform}.

(** The two effects of [App] (lines 36-43): each runs after a render in
    which its dependency changed.  Every [setConversations] call of the
    application passes a new array. *)
Definition effects (before : AppState) (cs : list Cmd) (w : State) : State :=
  let ls1 :=
    if existsb sets_conversations cs then
      <["rag_conversations" :=
          JSON_stringify (Json.of_conversations (conversations (app w)))]>
        (localStorage w)
    else localStorage w in
  let ls2 :=
    if bool_decide (activeConversationId (app w)
                    = activeConversationId before)
    then ls1
    else <["rag_active_chat" := activeConversationId (app w)]> ls1 in
  with_localStorage ls2 w.

(** What happens once a handler of render [app w] has made the calls
    [cs]: the queued updates are applied in order, the requests are in
    flight, and the effects run. *)
Definition commit (cs : list Cmd) (w : State) : State :=
  let w1 := fold_left apply cs w in
  let sent := List.map (in_flight (app w)) (flat_map request cs) in
  effects (app w) cs (with_pending (pending w1 ++ sent) w1).

Definition step (e : Event) (w : State) : State :=
  commit (calls (handler e w)) (settle e w).

Definition run (es : list Event) (w : State) : State :=
  fold_left (fun w e => step e w) es w.

(** First render: the initializers, then both effects.  [None] when the
    persisted value is outside the typed model or an initializer throws. *)
Definition mount (ls : gmap string jsstring) (now : N) : option State :=
  cs ← Json.to_conversations
         (App.conversations_initializer (ls !! "rag_conversations") now);
  match App.activeConversationId_initializer (ls !! "rag_active_chat") cs with
  | inl a =>
      Some {| app := {| conversations := cs; activeConversationId := a |};
              isLoading := false;
              uploading := false;
              localStorage :=
                <["rag_active_chat" := a]>
                  (<["rag_conversations" :=
                       JSON_stringify (Json.of_conversations cs)]> ls);
              pending := [];
              uploaded := List.map id (List.filter hasDocuments cs) |}
  | inr _ => None
  end.

(** The state of a first visit: nothing is persisted yet. *)
Definition first_visit (now : N) : State :=
  let c := App.default_conversation now in
  {| app := {| conversations := [c]; activeConversationId := id c |};
     isLoading := false;
     uploading := false;
     localStorage :=
       <["rag_active_chat" := id c]>
         (<["rag_conversations" := JSON_stringify (Json.of_conversations [c])]>
            ∅);
     pending := [];
     uploaded := [] |}.

Inductive reachable : State -> Prop :=
| reachable_mount ls now w : mount ls now = Some w -> reachable w
| reachable_step e w : reachable w -> reachable (step e w).
End Effects.

End World.

(** ** A concrete platform

    An executable reading of [JSON.stringify] and [JSON.parse] on the values
    above, used to evaluate the application on concrete [localStorage]
    contents.  It stands for the platform only on texts of the kind the
    examples below store: strings without lone surrogates and integers
    written without leading zeros, fraction or exponent, below [2^53].
    Elsewhere it differs: it reads [01], does not read [1.5] or [1e2], keeps
    larger integers exact, and writes a lone surrogate as it is.  The
    general theorems are stated for every [Platform] and do not depend on
    it. *)

Module JsonText.

Definition hex_digit (n : N) : N :=
  if (n <? 10)%N then (48 + n)%N else (87 + n)%N.

Definition escape (c : N) : jsstring :=
  if (c =? 34)%N then [92; 34]%N
  else if (c =? 92)%N then [92; 92]%N
  else if (c =? 8)%N then [92; 98]%N
  else if (c =? 9)%N then [92; 116]%N
  else if (c =? 10)%N then [92; 110]%N
  else if (c =? 12)%N then [92; 102]%N
  else if (c =? 13)%N then [92; 114]%N
  else if (c <? 32)%N then
    [92; 117; 48; 48; hex_digit (c / 16); hex_digit (c mod 16)]%N
  else [c].

Definition quote (s : jsstring) : jsstring :=
  34%N :: flat_map escape s ++ [34%N].

Fixpoint join (sep : jsstring) (parts : list jsstring) : jsstring :=
  match parts with
  | [] => []
  | [p] => p
  | p :: ps => p ++ sep ++ join sep ps
  end.

Fixpoint stringify (v : JSValue) : jsstring :=
  match v with
  | JNull => str "null"
  | JBool true => str "true"
  | JBool false => str "false"
  | JNum n => (if (n <? 0)%Z then str "-" else []) ++ decimal (Z.abs_N n)
  | JStr s => quote s
  | JArr items => str "[" ++ join (str ",") (List.map stringify items) ++ str "]"
  | JObj fields =>
      str "{"
      ++ join (str ",")
           (List.map (fun '(k, x) => quote k ++ str ":" ++ stringify x) fields)
      ++ str "}"
  end.

Fixpoint skip_ws (s : jsstring) : jsstring :=
  match s with
  | c :: s' =>
      if (c =? 32)%N || (c =? 9)%N || (c =? 10)%N || (c =? 13)%N
      then skip_ws s' else s
  | [] => []
  end.

(** [strip p s] is the rest of [s] after its prefix [p]. *)
Fixpoint strip (p s : jsstring) : option jsstring :=
  match p, s with
  | [], _ => Some s
  | a :: p', b :: s' => if (a =? b)%N then strip p' s' else None
  | _ :: _, [] => None
  end.

Definition hex_value (c : N) : option N :=
  if between 48 57 c then Some (c - 48)%N
  else if between 97 102 c then Some (c - 87)%N
  else if between 65 70 c then Some (c - 55)%N
  else None.

(** The characters of a string literal after its opening quote. *)
Fixpoint parse_string (s acc : jsstring) : option (jsstring * jsstring) :=
  match s with
  | [] => None
  | c :: rest =>
      if (c =? 34)%N then Some (rev acc, rest)
      else if (c =? 92)%N then
        match rest with
        | e :: rest' =>
            if (e =? 34)%N || (e =? 92)%N || (e =? 47)%N
            then parse_string rest' (e :: acc)
            else if (e =? 98)%N then parse_string rest' (8%N :: acc)
            else if (e =? 102)%N then parse_string rest' (12%N :: acc)
            else if (e =? 110)%N then parse_string rest' (10%N :: acc)
            else if (e =? 114)%N then parse_string rest' (13%N :: acc)
            else if (e =? 116)%N then parse_string rest' (9%N :: acc)
            else if (e =? 117)%N then
              match rest' with
              | h1 :: h2 :: h3 :: h4 :: rest'' =>
                  match hex_value h1, hex_value h2, hex_value h3, hex_value h4 with
                  | Some a, Some b, Some c', Some d =>
                      parse_string rest''
                        ((a * 4096 + b * 256 + c' * 16 + d)%N :: acc)
                  | _, _, _, _ => None
                  end
              | _ => None
              end
            else None
        | [] => None
        end
      else if (c <? 32)%N then None
      else parse_string rest (c :: acc)
  end.

Fixpoint parse_digits (s : jsstring) (acc : N) : N * jsstring :=
  match s with
  | c :: rest =>
      if between 48 57 c then parse_digits rest (acc * 10 + (c - 48))%N
      else (acc, s)
  | [] => (acc, [])
  end.

Definition parse_number (s : jsstring) : option (JSValue * jsstring) :=
  let '(negative, s1) :=
    match s with
    | c :: rest => if (c =? 45)%N then (true, rest) else (false, s)
    | [] => (false, s)
    end in
  match s1 with
  | c :: _ =>
      if between 48 57 c then
        let '(n, rest) := parse_digits s1 0%N in
        Some (JNum (if negative then - Z.of_N n else Z.of_N n)%Z, rest)
      else None
  | [] => None
  end.

Fixpoint parse_value (fuel : nat) (s : jsstring) : option (JSValue * jsstring) :=
  match fuel with
  | O => None
  | S fuel =>
      let s := skip_ws s in
      match s with
      | [] => None
      | c :: rest =>
          if (c =? 34)%N then
            '(x, rest') ← parse_string rest []; Some (JStr x, rest')
          else if (c =? 91)%N then
            match skip_ws rest with
            | d :: rest' =>
                if (d =? 93)%N then Some (JArr [], rest')
                else parse_elements fuel rest []
            | [] => None
            end
          else if (c =? 123)%N then
            match skip_ws rest with
            | d :: rest' =>
                if (d =? 125)%N then Some (JObj [], rest')
                else parse_members fuel rest []
            | [] => None
            end
          else
            match strip (str "null") s, strip (str "true") s,
                  strip (str "false") s with
            | Some rest', _, _ => Some (JNull, rest')
            | _, Some rest', _ => Some (JBool true, rest')
            | _, _, Some rest' => Some (JBool false, rest')
            | _, _, _ => parse_number s
            end
      end
  end
with parse_elements (fuel : nat) (s : jsstring) (acc : list JSValue)
    : option (JSValue * jsstring) :=
  match fuel with
  | O => None
  | S fuel =>
      '(x, rest) ← parse_value fuel s;
      match skip_ws rest with
      | d :: rest' =>
          if (d =? 44)%N then parse_elements fuel rest' (x :: acc)
          else if (d =? 93)%N then Some (JArr (rev (x :: acc)), rest')
          else None
      | [] => None
      end
  end
with parse_members (fuel : nat) (s : jsstring)
    (acc : list (jsstring * JSValue)) : option (JSValue * jsstring) :=
  match fuel with
  | O => None
  | S fuel =>
      match skip_ws s with
      | q :: s1 =>
          if (q =? 34)%N then
            '(k, s2) ← parse_string s1 [];
            match skip_ws s2 with
            | colon :: s3 =>
                if (colon =? 58)%N then
                  '(x, rest) ← parse_value fuel s3;
                  match skip_ws rest with
                  | d :: rest' =>
                      if (d =? 44)%N
                      then parse_members fuel rest' ((k, x) :: acc)
                      else if (d =? 125)%N
                      then Some (JObj (rev ((k, x) :: acc)), rest')
                      else None
                  | [] => None
                  end
                else None
            | [] => None
            end
          else None
      | [] => None
      end
  end.

Definition parse (s : jsstring) : option JSValue :=
  '(v, rest) ← parse_value (S (length s)) s;
  match skip_ws rest with
  | [] => Some v
  | _ :: _ => None
  end.

End JsonText.

#[global] Instance browser : Platform :=
  {| JSON_parse := JsonText.parse; JSON_stringify := JsonText.stringify |}.

(** * Vocabulary of the statements *)

(** ** What the handlers compute *)

(** Calls that set no state of [App], [ChatWindow]'s loading flag or the
    uploader's flag and send no request. *)
Definition inert (c : Cmd) : bool :=
  match c with
  | SetConversations _ | SetActiveConversationId _ | SetIsLoading _
  | SetUploading _ | Post _ => false
  | _ => true
  end.

(** The collection after the [setConversations] calls among [cs] have been
    applied, in order, to [convs]. *)
Definition updated (cs : list Cmd) (convs : list Conversation)
    : list Conversation :=
  fold_left (fun convs c =>
               match c with
               | SetConversations f => f convs
               | _ => convs
               end) cs convs.

(** The conversation that [createConversation] builds for a title that
    sanitizes to [sanitizedName]. *)
Definition created (sanitizedName : jsstring) (now : N) (rnd : jsstring)
    : Conversation :=
  {| id := str "chat-" ++ decimal now ++ str "-" ++ rnd;
     title := sanitizedName; name := sanitizedName;
     hasDocuments := false; messages := [] |}.

(** The three updates of one conversation of a collection. *)
Definition appended (chat : jsstring) (m : Message)
    (convs : list Conversation) : list Conversation :=
  List.map (fun c =>
              if bool_decide (id c = chat)
              then App.with_messages (messages c ++ [m]) c
              else c) convs.

Definition marked (chat : jsstring) (convs : list Conversation)
    : list Conversation :=
  List.map (fun c =>
              if bool_decide (id c = chat)
              then App.with_hasDocuments true c
              else c) convs.

Definition cleared (chat : jsstring) (convs : list Conversation)
    : list Conversation :=
  List.map (fun c =>
              if bool_decide (id c = chat)
              then App.with_messages [] (App.with_hasDocuments false c)
              else c) convs.

Definition generic_error : jsstring :=
  str "Sorry, I encountered an error. Please try again.".

(** The messages that [handleSend] builds. *)
Definition userMessage (input now : jsstring) : Message :=
  {| text := trim input; isUser := true; timestamp := now; sources := None;
     isError := false |}.

Definition botMessage (data : ChatWindow.QueryData) (now : jsstring)
    : Message :=
  {| text := ChatWindow.answer data; isUser := false; timestamp := now;
     sources := Some (default [] (ChatWindow.data_sources data));
     isError := false |}.

Definition errorMessage (err : JSError) (now : jsstring) : Message :=
  {| text :=
       match detail err with
       | Some (c :: d) => c :: d
       | _ => generic_error
       end;
     isUser := false; timestamp := now; sources := None; isError := true |}.

Definition reply (settled : ChatWindow.QueryData + JSError) (now : jsstring)
    : Message :=
  match settled with
  | inl data => botMessage data now
  | inr err => errorMessage err now
  end.

(** Whether [handleSend] goes past its guard. *)
Definition sendable (input : jsstring) (w : World.State) : bool :=
  truthy (trim input) && World.hasDocuments_prop (World.app w)
  && negb (World.isLoading w).

(** The [chat_name] that [uploadFile] appends to the form. *)
Definition form_chat_name (chatName : option jsstring) : option jsstring :=
  match chatName with
  | Some n => if truthy n then Some n else None
  | None => None
  end.

(** ** The properties *)

(** The collection is not empty and the active identifier is that of one of
    its members. *)
Definition conversation_invariant (a : AppState) : Prop :=
  conversations a <> []
  /\ exists c, In c (conversations a) /\ id c = activeConversationId a.

(** The invariant, with identifiers that are pairwise distinct. *)
Definition well_formed (a : AppState) : Prop :=
  List.NoDup (List.map id (conversations a))
  /\ World.listed (activeConversationId a) (conversations a) = true.

(** A sequence of [createConversation] and [deleteConversation] operations
    in which every identifier drawn for a new conversation is fresh. *)
Fixpoint create_delete `{Platform} (es : list World.Event) (w : World.State)
    : Prop :=
  match es with
  | [] => True
  | e :: es' =>
      match e with
      | World.ClickNewChat (Some raw) now rnd =>
          ~ In (id (created (App.sanitize raw) now rnd))
               (List.map id (conversations (World.app w)))
      | World.ClickNewChat None _ _ => True
      | World.ClickDelete _ => True
      | _ => False
      end
      /\ create_delete es' (World.step e w)
  end.

(** Both persisted values are those of the state in memory. *)
Definition in_sync `{Platform} (w : World.State) : Prop :=
  World.localStorage w !! "rag_conversations"
  = Some (JSON_stringify
            (Json.of_conversations (conversations (World.app w))))
  /\ World.localStorage w !! "rag_active_chat"
     = Some (activeConversationId (World.app w)).

(** ** Invariants of the running application *)

Definition is_query (p : World.Pending) : bool :=
  match p with World.PendingQuery _ => true | _ => false end.

(** The render that the continuation of a request closes over, with the
    [chat_id] that the request carries. *)
Definition closure (p : World.Pending) : option (jsstring * AppState) :=
  match p with
  | World.PendingQuery _ => None
  | World.PendingUpload chat_id r | World.PendingReset chat_id r =>
      Some (chat_id, r)
  end.

(** An upload or a reset was sent for the chat that was active in the render
    that sent it. *)
Definition closures_bound (w : World.State) : Prop :=
  forall p chat_id r,
    In p (World.pending w) -> closure p = Some (chat_id, r) ->
    chat_id = activeConversationId r.

(** [isLoading] says whether a query is in flight, and at most one is. *)
Definition one_query_at_a_time (w : World.State) : Prop :=
  length (List.filter is_query (World.pending w))
  = if World.isLoading w then 1%nat else 0%nat.

(** Every conversation with documents, in the state or in a render that a
    continuation closes over, is one for which an upload has succeeded. *)
Definition documents_were_uploaded (w : World.State) : Prop :=
  (forall c, In c (conversations (World.app w)) -> hasDocuments c = true ->
             In (id c) (World.uploaded w))
  /\ (forall p chat_id r c,
        In p (World.pending w) -> closure p = Some (chat_id, r) ->
        In c (conversations r) -> hasDocuments c = true ->
        In (id c) (World.uploaded w)).

Definition consistent (w : World.State) : Prop :=
  closures_bound w /\ one_query_at_a_time w /\ documents_were_uploaded w.

(** ** Sample data *)

Definition sample_message : Message :=
  {| text := str "What is in the report?"; isUser := true;
     timestamp := str "2024-05-01T10:00:00.000Z"; sources := None;
     isError := false |}.

Definition sample_answer : Message :=
  {| text := str "Revenue for the first quarter."; isUser := false;
     timestamp := str "2024-05-01T10:00:02.000Z";
     sources := Some [{| source := str "report.pdf";
                         content := str "Q1 revenue" |}];
     isError := false |}.

Definition sample_followup : Message :=
  {| text := str "And the second quarter?"; isUser := true;
     timestamp := str "2024-05-01T10:01:00.000Z"; sources := None;
     isError := false |}.

(** A conversation with documents and three messages. *)
Definition sample_conversation : Conversation :=
  {| id := str "chat-1714557600000-k3j9x2m1q"; title := str "Report 1";
     name := str "Report 1"; hasDocuments := true;
     messages := [sample_message; sample_answer; sample_followup] |}.

Definition other_conversation : Conversation :=
  {| id := str "chat-1714557700000-a1b2c3d4e"; title := str "Notes";
     name := str "Notes"; hasDocuments := true; messages := [] |}.

Definition sample_upload : FileUploader.UploadData :=
  {| FileUploader.data_message := str "File processed successfully";
     FileUploader.chunks := 12 |}.

(** A failed response whose body carries an empty [detail], and one whose
    body carries a text. *)
Definition empty_detail_error : JSError :=
  {| message := str "Request failed with status code 500";
     detail := Some [] |}.

Definition detailed_error : JSError :=
  {| message := str "Request failed with status code 404";
     detail := Some (str "No documents indexed for this chat") |}.

(** Persisted values whose active identifier is that of no stored
    conversation, and persisted values whose collection is empty. *)
Definition dangling_storage : gmap string jsstring :=
  {[ "rag_conversations" :=
       JsonText.stringify
         (Json.of_conversations [App.default_conversation 1]);
     "rag_active_chat" := str "chat-2-k3j9x2m1q" ]}.

Definition empty_storage : gmap string jsstring :=
  {[ "rag_conversations" := str "[]";
     "rag_active_chat" := str "chat_1" ]}.

(** A returning visitor with one conversation, and one with two, the first
    of which is active. *)
Definition returning_storage : gmap string jsstring :=
  {[ "rag_conversations" :=
       JsonText.stringify (Json.of_conversations [sample_conversation]);
     "rag_active_chat" := id sample_conversation ]}.

Definition two_chats_storage : gmap string jsstring :=
  {[ "rag_conversations" :=
       JsonText.stringify
         (Json.of_conversations [sample_conversation; other_conversation]);
     "rag_active_chat" := id sample_conversation ]}.

Definition returning_visit : World.State :=
  default (World.first_visit 0) (World.mount returning_storage 9).

Definition two_chats_visit : World.State :=
  default (World.first_visit 0) (World.mount two_chats_storage 9).

(** ** Vocabulary of the further properties *)

(** The conversations that [deleteConversation] keeps. *)
Definition remaining (id' : jsstring) (cs : list Conversation)
    : list Conversation :=
  List.filter (fun c => negb (bool_decide (id c = id'))) cs.

Definition is_upload (p : World.Pending) : bool :=
  match p with World.PendingUpload _ _ => true | _ => false end.

(** [uploading] says whether an upload is in flight, and at most one is. *)
Definition one_upload_at_a_time (w : World.State) : Prop :=
  length (List.filter is_upload (World.pending w))
  = if World.uploading w then 1%nat else 0%nat.

Definition upload_error : jsstring :=
  str "Error uploading file. Please try again.".

Definition is_digit (c : N) : bool := between 48 57 c.

(** [c'] is [c] with, possibly, more messages at the end. *)
Definition extends (c c' : Conversation) : Prop :=
  id c' = id c /\ title c' = title c /\ name c' = name c
  /\ hasDocuments c' = hasDocuments c
  /\ exists more, messages c' = messages c ++ more.

(** The two continuations that set the collection of an earlier render. *)
Definition restores (e : World.Event) : bool :=
  match e with
  | World.UploadSettled _ (inl _) | World.ResetSettled _ (inl _) => true
  | _ => false
  end.

(** A name that is not empty and has only the code units that
    [createConversation] keeps: letters, digits, white space, hyphens and
    underscores. *)
Definition safe_name (n : jsstring) : bool :=
  truthy n && forallb App.kept n.

(** Every conversation, in the state or in a render that a continuation
    closes over, has such a name. *)
Definition names_safe (w : World.State) : Prop :=
  (forall c, In c (conversations (World.app w)) -> safe_name (name c) = true)
  /\ (forall p chat_id r c,
        In p (World.pending w) -> closure p = Some (chat_id, r) ->
        In c (conversations r) -> safe_name (name c) = true).

(** The [chat_name] that a request carries. *)
Definition chat_name_of (r : Request) : option jsstring :=
  match r with
  | UploadRequest _ _ n | QueryRequest _ _ n => n
  | ResetRequest _ => None
  end.

(** [s] does not start with a word character. *)
Definition word_ends (s : jsstring) : Prop :=
  match s with
  | c :: _ => MessageBubble.is_word c = false
  | [] => True
  end.

(** [/language-(\w+)/] matches in [s] after [pre]. *)
Definition matches_after (pre s : jsstring) : Prop :=
  exists c rest,
    s = pre ++ str "language-" ++ c :: rest /\ MessageBubble.is_word c = true.



(** The React key of the bubble at position [idx]. *)
Definition bubble_key (timestamp : jsstring) (idx : nat) : jsstring :=
  timestamp ++ str "-" ++ decimal (N.of_nat idx).



(** A stored collection in which one conversation has a name that
    [createConversation] would not have given. *)
Definition foreign_conversation : Conversation :=
  {| id := str "chat-1714557500000-u0u0u0u0u"; title := str "a/b";
     name := str "a/b"; hasDocuments := false; messages := [] |}.

Definition foreign_storage : gmap string jsstring :=
  {[ "rag_conversations" :=
       JsonText.stringify
         (Json.of_conversations [foreign_conversation; sample_conversation]);
     "rag_active_chat" := id sample_conversation ]}.

Definition foreign_visit : World.State :=
  default (World.first_visit 0) (World.mount foreign_storage 9).

(** * Properties *)

(** ** Persisted records are read back as they were written *)

Lemma to_source_of_source (s : Source) :
  Json.to_source (Json.of_source s) = Some s.
Proof. by destruct s. Qed.

Lemma mapM_to_source (l : list Source) :
  mapM Json.to_source (List.map Json.of_source l) = Some l.
Proof.
  induction l as [|s l IH]; [done|].
  cbn [List.map mapM]. rewrite to_source_of_source. cbn. by rewrite IH.
Qed.

Lemma to_message_of_message (m : Message) :
  Json.to_message (Json.of_message m) = Some m.
Proof.
  destruct m as [t u ts [l|] [|]]; cbn; rewrite ?mapM_to_source; done.
Qed.

Lemma mapM_to_message (l : list Message) :
  mapM Json.to_message (List.map Json.of_message l) = Some l.
Proof.
  induction l as [|m l IH]; [done|].
  cbn [List.map mapM]. rewrite to_message_of_message. cbn. by rewrite IH.
Qed.

Lemma to_conversation_of_conversation (c : Conversation) :
  Json.to_conversation (Json.of_conversation c) = Some c.
Proof. destruct c. cbn. by rewrite mapM_to_message. Qed.

Lemma to_conversations_of_conversations (cs : list Conversation) :
  Json.to_conversations (Json.of_conversations cs) = Some cs.
Proof.
  unfold Json.of_conversations, Json.to_conversations.
  induction cs as [|c cs IH]; [done|].
  cbn [List.map mapM]. rewrite to_conversation_of_conversation. cbn.
  by rewrite IH.
Qed.

(** The typed reading accepts nothing but the images of the records. *)

Lemma mapM_exact {A} (dec : JSValue -> option A) (enc : A -> JSValue)
    (l : list JSValue) (xs : list A) :
  (forall v x, In v l -> dec v = Some x -> v = enc x) ->
  mapM dec l = Some xs -> l = List.map enc xs.
Proof.
  revert xs. induction l as [|v l IH]; intros xs Hdec Hl.
  - by injection Hl as <-.
  - cbn in Hl. destruct (dec v) as [x|] eqn:Hv; [|done]. cbn in Hl.
    destruct (mapM dec l) as [xs'|] eqn:Hl'; [|done]. injection Hl as <-.
    cbn. f_equal.
    + apply Hdec; [by left|done].
    + apply IH; [|done]. intros v' x' Hin. apply Hdec. by right.
Qed.

Ltac key_cases :=
  repeat match goal with
         | |- context [bool_decide (?k = ?s)] =>
             destruct (bool_decide_reflect (k = s)); [subst k|];
             cbn [andb]
         end.

Lemma to_source_exact (v : JSValue) (s : Source) :
  Json.to_source v = Some s -> v = Json.of_source s.
Proof.
  destruct v as [| | | | |fields]; try done.
  destruct fields as [|[k1 [| | |s1| |]] [|[k2 [| | |s2| |]] [|]]]; try done.
  unfold Json.to_source. key_cases; try done. by intros [= <-].
Qed.

Lemma to_message_exact (v : JSValue) (m : Message) :
  Json.to_message v = Some m -> v = Json.of_message m.
Proof.
  destruct v as [| | | | |fields]; try done.
  destruct fields
    as [|[k1 [| | |t| |]] [|[k2 [|u| | | |]] [|[k3 [| | |ts| |]] rest]]];
    try done.
  unfold Json.to_message. key_cases; try done.
  destruct rest as [|[k4 [|[|]| | |l|]] [|[k5 [|[|]| | | |]] [|]]]; try done;
    key_cases; try done.
  - by intros [= <-].
  - by intros [= <-].
  - destruct (mapM Json.to_source l) as [ss|] eqn:Hl; [|done].
    intros [= <-]. unfold Json.of_message. cbn [sources isError app].
    repeat f_equal. eapply mapM_exact; [|done].
    intros. by apply to_source_exact.
  - destruct (mapM Json.to_source l) as [ss|] eqn:Hl; [|done].
    intros [= <-]. unfold Json.of_message. cbn [sources isError app].
    repeat f_equal. eapply mapM_exact; [|done].
    intros. by apply to_source_exact.
Qed.

Lemma to_conversation_exact (v : JSValue) (c : Conversation) :
  Json.to_conversation v = Some c -> v = Json.of_conversation c.
Proof.
  destruct v as [| | | | |fields]; try done.
  destruct fields
    as [|[k1 [| | |i| |]] [|[k2 [| | |t| |]] [|[k3 [| | |n| |]]
        [|[k4 [|h| | | |]] [|[k5 [| | | |ms|]] [|]]]]]];
    try done.
  unfold Json.to_conversation. key_cases; try done.
  destruct (mapM Json.to_message ms) as [ms'|] eqn:Hms; [|done].
  intros [= <-]. unfold Json.of_conversation. cbn [messages].
  repeat f_equal. eapply mapM_exact; [|done].
  intros. by apply to_message_exact.
Qed.

(** The typed state of [App] is the value that was loaded. *)
Lemma to_conversations_exact (v : JSValue) (cs : list Conversation) :
  Json.to_conversations v = Some cs -> v = Json.of_conversations cs.
Proof.
  destruct v as [| | | |l|]; try done. cbn. intros Hl.
  unfold Json.of_conversations. f_equal.
  eapply mapM_exact; [|done]. intros. by apply to_conversation_exact.
Qed.

(** ** Calls that change nothing *)

Lemma apply_inert (c : Cmd) (w : World.State) :
  inert c = true -> World.apply w c = w.
Proof. by destruct c. Qed.

Lemma fold_apply_inert (cs : list Cmd) (w : World.State) :
  forallb inert cs = true -> fold_left World.apply cs w = w.
Proof.
  induction cs as [|c cs IH]; [done|]. cbn. intros [Hc Hcs]%andb_prop.
  rewrite (apply_inert c w Hc). by apply IH.
Qed.

Lemma inert_no_request (cs : list Cmd) :
  forallb inert cs = true -> flat_map World.request cs = [].
Proof.
  induction cs as [|c cs IH]; [done|]. cbn. intros [Hc Hcs]%andb_prop.
  rewrite (IH Hcs). by destruct c.
Qed.

Lemma inert_no_setConversations (cs : list Cmd) :
  forallb inert cs = true -> existsb World.sets_conversations cs = false.
Proof.
  induction cs as [|c cs IH]; [done|]. cbn. intros [Hc Hcs]%andb_prop.
  rewrite (IH Hcs). by destruct c.
Qed.

Lemma commit_inert `{Platform} (cs : list Cmd) (w : World.State) :
  forallb inert cs = true -> World.commit cs w = w.
Proof.
  intros Hcs. unfold World.commit, World.effects.
  rewrite (fold_apply_inert cs w Hcs), (inert_no_request cs Hcs),
    (inert_no_setConversations cs Hcs).
  destruct w as [a l u ls p h]. cbn. rewrite app_nil_r.
  by rewrite bool_decide_eq_true_2.
Qed.

(** ** Loading the persisted collection *)

(** C6 (as stated, refuted): a persisted value that parses but is not a
    conversation collection is not replaced by the default conversation: the
    text [{}] is loaded as the empty object. *)
Lemma parseable_value_is_loaded_unvalidated :
  JSON_parse (str "{}") = Some (JObj [])
  /\ Json.to_conversations (JObj []) = None
  /\ App.conversations_initializer (Some (str "{}")) 0 = JObj []
  /\ App.conversations_initializer (Some (str "{}")) 0
     <> Json.of_conversations [App.default_conversation 0].
Proof. repeat split; try reflexivity. vm_compute. discriminate. Qed.

(** C6 (amended): when the persisted collection is absent, the empty string
    or unparseable, the initial collection is the single default
    conversation, with title "New Chat", index name "default", no documents
    and no messages; any other persisted text is loaded as whatever value it
    parses to, so a stored collection is read back field for field. *)
Theorem conversations_initializer_fallback_and_reload `{Platform} (now : N) :
  (forall saved,
      saved = None \/ saved = Some []
      \/ (exists s, saved = Some s /\ JSON_parse s = None) ->
      App.conversations_initializer saved now
      = Json.of_conversations [App.default_conversation now])
  /\ (title (App.default_conversation now) = str "New Chat"
      /\ name (App.default_conversation now) = str "default"
      /\ hasDocuments (App.default_conversation now) = false
      /\ messages (App.default_conversation now) = [])
  /\ (forall s v,
        s <> [] -> JSON_parse s = Some v ->
        App.conversations_initializer (Some s) now = v)
  /\ (forall cs,
        let s := JSON_stringify (Json.of_conversations cs) in
        s <> [] -> JSON_parse s = Some (Json.of_conversations cs) ->
        Json.to_conversations (App.conversations_initializer (Some s) now)
        = Some cs).
Proof.
  assert (Hload : forall s v, s <> [] -> JSON_parse s = Some v ->
                    App.conversations_initializer (Some s) now = v).
  { intros s v Hs Hv. unfold App.conversations_initializer.
    destruct s; [done|]. cbn [truthy]. by rewrite Hv. }
  split; [|split; [done|split; [exact Hload|]]].
  - intros saved [->|[->|(s & -> & Hs)]]; try reflexivity.
    unfold App.conversations_initializer. rewrite Hs. by destruct (truthy s).
  - intros cs s Hs Hparse. rewrite (Hload s _ Hs Hparse).
    apply to_conversations_of_conversations.
Qed.

Lemma conversations_initializer_fallback_and_reload_witness :
  App.conversations_initializer (Some (str "{oops")) 7
  = Json.of_conversations [App.default_conversation 7]
  /\ Json.to_conversations
       (App.conversations_initializer
          (Some (JSON_stringify (Json.of_conversations [sample_conversation])))
          7)
     = Some [sample_conversation].
Proof.
  destruct (conversations_initializer_fallback_and_reload (H:=browser) 7)
    as (Hfallback & _ & _ & Hreload).
  split.
  - apply Hfallback. right. right. exists (str "{oops"). split; reflexivity.
  - apply Hreload; [discriminate | reflexivity].
Defined.

(** ** Creating a conversation *)

Lemma app_commit `{Platform} (cs : list Cmd) (w : World.State) :
  World.app (World.commit cs w) = World.app (fold_left World.apply cs w).
Proof. reflexivity. Qed.

Lemma kept_spec (c : N) :
  App.kept c = true ->
  (97 <= c <= 122 \/ 65 <= c <= 90 \/ 48 <= c <= 57
   \/ is_whitespace c = true \/ c = 45 \/ c = 95)%N.
Proof.
  unfold App.kept, between.
  rewrite !orb_true_iff, !andb_true_iff, !N.leb_le, !N.eqb_eq. tauto.
Qed.

Lemma app_step_create `{Platform} (w : World.State)
    (chatName : option jsstring) (now : N) (rnd : jsstring) :
  World.app (World.step (World.ClickNewChat chatName now rnd) w)
  = match chatName with
    | Some raw =>
        if truthy (App.sanitize raw) then
          {| conversations :=
               conversations (World.app w)
               ++ [created (App.sanitize raw) now rnd];
             activeConversationId := id (created (App.sanitize raw) now rnd) |}
        else World.app w
    | None => World.app w
    end.
Proof.
  unfold World.step. rewrite app_commit. cbn [World.handler World.settle].
  destruct chatName as [raw|]; [|done]. unfold App.createConversation.
  destruct (truthy raw) eqn:Hraw; cbn [negb orb].
  - destruct (truthy (trim raw)) eqn:Ht; cbn [negb].
    + by destruct (truthy (App.sanitize raw)); destruct w as [[]].
    + unfold App.sanitize. by destruct (trim raw).
  - by destruct raw.
Qed.

(** C4: a cancelled, empty or whitespace-only title is rejected with "Chat
    name is required!" and nothing changes; otherwise the title is trimmed
    and only letters, digits, whitespace, hyphens and underscores of it are
    kept; a title of which nothing is kept is rejected with its own notice
    and nothing changes; otherwise a conversation with the sanitized title as
    title and index name, no documents and no messages is appended and is
    the active one.  " Report #1! " gives "Report 1", "###" is rejected. *)
Theorem createConversation_sanitizes_and_appends `{Platform}
    (w : World.State) (now : N) (rnd : jsstring) :
  let cs := conversations (World.app w) in
  (forall chatName,
      chatName = None \/ (exists raw, chatName = Some raw /\ trim raw = []) ->
      calls (App.createConversation cs chatName now rnd)
      = [Alert (str "Chat name is required!")]
      /\ World.step (World.ClickNewChat chatName now rnd) w = w)
  /\ (forall raw,
        trim raw <> [] -> App.sanitize raw = [] ->
        calls (App.createConversation cs (Some raw) now rnd)
        = [Alert (str "Invalid chat name. Please use letters, numbers, spaces, hyphens, or underscores.")]
        /\ World.step (World.ClickNewChat (Some raw) now rnd) w = w)
  /\ (forall raw,
        App.sanitize raw <> [] ->
        World.app (World.step (World.ClickNewChat (Some raw) now rnd) w)
        = {| conversations := cs ++ [created (App.sanitize raw) now rnd];
             activeConversationId := id (created (App.sanitize raw) now rnd) |})
  /\ (forall raw,
        App.sanitize raw = List.filter App.kept (trim raw)
        /\ Forall (fun c => (97 <= c <= 122 \/ 65 <= c <= 90 \/ 48 <= c <= 57
                             \/ is_whitespace c = true \/ c = 45 \/ c = 95)%N)
                  (App.sanitize raw))
  /\ App.sanitize (str " Report #1! ") = str "Report 1"
  /\ calls (App.createConversation cs (Some (str "###")) now rnd)
     = [Alert (str "Invalid chat name. Please use letters, numbers, spaces, hyphens, or underscores.")].
Proof.
  intros cs.
  assert (forall raw, trim raw = [] -> App.sanitize raw = []) as Hblank.
  { intros raw Hraw. unfold App.sanitize. by rewrite Hraw. }
  assert (forall chatName,
             chatName = None \/ (exists raw, chatName = Some raw /\ trim raw = []) ->
             calls (App.createConversation cs chatName now rnd)
             = [Alert (str "Chat name is required!")]) as Hrequired.
  { intros chatName [->|(raw & -> & Hraw)]; [done|].
    unfold App.createConversation. rewrite Hraw. cbn. by rewrite orb_true_r. }
  assert (forall raw,
             trim raw <> [] -> App.sanitize raw = [] ->
             calls (App.createConversation cs (Some raw) now rnd)
             = [Alert (str "Invalid chat name. Please use letters, numbers, spaces, hyphens, or underscores.")])
    as Hinvalid.
  { intros raw Ht Hs. unfold App.createConversation.
    assert (truthy raw = true) as -> by (by destruct raw).
    destruct (trim raw); [done|]. cbn. by rewrite Hs. }
  split; [|split; [|split; [|split; [|split]]]].
  - intros chatName Hname. split; [by apply Hrequired|].
    unfold World.step. apply commit_inert. cbn [World.handler].
    fold cs. by rewrite Hrequired.
  - intros raw Ht Hs. split; [by apply Hinvalid|].
    unfold World.step. apply commit_inert. cbn [World.handler].
    fold cs. by rewrite Hinvalid.
  - intros raw Hs. rewrite app_step_create. by destruct (App.sanitize raw).
  - intros raw. split; [reflexivity|].
    apply List.Forall_forall. intros c [_ Hc]%filter_In. by apply kept_spec.
  - reflexivity.
  - reflexivity.
Qed.

Lemma createConversation_sanitizes_and_appends_witness :
  World.step (World.ClickNewChat (Some (str "   ")) 2000 (str "k3j9x2m1q"))
    (World.first_visit 1000)
  = World.first_visit 1000
  /\ World.step (World.ClickNewChat (Some (str "###")) 2000 (str "k3j9x2m1q"))
       (World.first_visit 1000)
     = World.first_visit 1000
  /\ conversations
       (World.app
          (World.step
             (World.ClickNewChat (Some (str " Report #1! ")) 2000
                (str "k3j9x2m1q"))
             (World.first_visit 1000)))
     = [App.default_conversation 1000;
        {| id := str "chat-2000-k3j9x2m1q"; title := str "Report 1";
           name := str "Report 1"; hasDocuments := false; messages := [] |}].
Proof.
  destruct (createConversation_sanitizes_and_appends (H:=browser)
              (World.first_visit 1000) 2000 (str "k3j9x2m1q"))
    as (Hrequired & Hinvalid & Hcreated & _).
  split; [|split].
  - apply Hrequired. right. exists (str "   "). split; reflexivity.
  - apply Hinvalid; [discriminate|reflexivity].
  - rewrite Hcreated; [reflexivity|discriminate].
Defined.

(** ** The conversation invariant *)

Lemma listed_spec (id' : jsstring) (cs : list Conversation) :
  World.listed id' cs = true <-> exists c, In c cs /\ id c = id'.
Proof.
  unfold World.listed. rewrite existsb_exists.
  split; intros (c & Hc & Hid); exists c; (split; [done|]).
  - by apply bool_decide_eq_true in Hid.
  - by apply bool_decide_eq_true.
Qed.

Lemma well_formed_invariant (a : AppState) :
  well_formed a -> conversation_invariant a.
Proof.
  intros [_ (c & Hc & Hid)%listed_spec]. split; [|by exists c].
  intros Hnil. by rewrite Hnil in Hc.
Qed.

Lemma NoDup_map_filter {A B} (f : A -> B) (p : A -> bool) (l : list A) :
  List.NoDup (List.map f l) -> List.NoDup (List.map f (List.filter p l)).
Proof.
  induction l as [|x l IH]; [done|]. cbn.
  intros [Hx Hl]%List.NoDup_cons_iff. destruct (p x); [|by apply IH].
  cbn. apply List.NoDup_cons; [|by apply IH].
  intros (y & Hy & [Hin _]%filter_In)%in_map_iff.
  apply Hx, in_map_iff. by exists y.
Qed.

Lemma app_commit_delete `{Platform} (w : World.State) (id' : jsstring) :
  let cs := conversations (World.app w) in
  let a := activeConversationId (World.app w) in
  let filtered := List.filter (fun c => negb (bool_decide (id c = id'))) cs in
  World.app (World.commit (calls (App.deleteConversation cs a id')) w)
  = if (length cs =? 1)%nat then World.app w
    else
      {| conversations := filtered;
         activeConversationId :=
           if bool_decide (a = id') then
             match filtered with c :: _ => id c | [] => a end
           else a |}.
Proof.
  intros cs a filtered. rewrite app_commit.
  unfold App.deleteConversation. fold filtered.
  destruct (length cs =? 1)%nat; [done|].
  destruct (bool_decide (a = id')); [destruct filtered|]; done.
Qed.

Lemma app_step_delete `{Platform} (w : World.State) (id' : jsstring) :
  let cs := conversations (World.app w) in
  let a := activeConversationId (World.app w) in
  let filtered := List.filter (fun c => negb (bool_decide (id c = id'))) cs in
  World.app (World.step (World.ClickDelete id') w)
  = if (1 <? length cs)%nat && World.listed id' cs then
      {| conversations := filtered;
         activeConversationId :=
           if bool_decide (a = id') then
             match filtered with c :: _ => id c | [] => a end
           else a |}
    else World.app w.
Proof.
  intros cs a filtered. subst cs a filtered. unfold World.step.
  cbn [World.handler World.settle].
  destruct (1 <? length _)%nat eqn:Hlen; cbn [andb]; [|done].
  destruct (World.listed id' _); [|done].
  pose proof (app_commit_delete w id') as ->.
  assert ((length (conversations (World.app w)) =? 1)%nat = false) as ->;
    [|done].
  apply Nat.ltb_lt in Hlen. apply Nat.eqb_neq. lia.
Qed.

Lemma filtered_nonempty (cs : list Conversation) (id' : jsstring) :
  List.NoDup (List.map id cs) -> (1 < length cs)%nat ->
  List.filter (fun c => negb (bool_decide (id c = id'))) cs <> [].
Proof.
  destruct cs as [|c1 [|c2 cs]]; cbn; try lia. intros Hnd _.
  destruct (bool_decide_reflect (id c1 = id')) as [H1|H1]; cbn; [|done].
  destruct (bool_decide_reflect (id c2 = id')) as [H2|H2]; cbn; [|done].
  apply List.NoDup_cons_iff in Hnd as [Hin _]. exfalso. apply Hin.
  left. congruence.
Qed.

Lemma create_preserves `{Platform} (w : World.State)
    (chatName : option jsstring) (now : N) (rnd : jsstring) :
  well_formed (World.app w) ->
  match chatName with
  | Some raw =>
      ~ In (id (created (App.sanitize raw) now rnd))
           (List.map id (conversations (World.app w)))
  | None => True
  end ->
  well_formed (World.app (World.step (World.ClickNewChat chatName now rnd) w)).
Proof.
  intros [Hnd Hact] Hfresh. rewrite app_step_create.
  destruct chatName as [raw|]; [|done].
  destruct (truthy (App.sanitize raw)); [|done]. split; cbn.
  - rewrite map_app. cbn. apply List.NoDup_app.
    + done.
    + apply List.NoDup_cons; [by intros []|apply List.NoDup_nil].
    + intros x Hx [<-|[]]. by apply Hfresh.
  - apply listed_spec. exists (created (App.sanitize raw) now rnd).
    split; [|done]. apply in_app_iff. right. by left.
Qed.

Lemma deleteConversation_preserves `{Platform} (w : World.State)
    (id' : jsstring) :
  well_formed (World.app w) ->
  well_formed
    (World.app
       (World.commit
          (calls (App.deleteConversation (conversations (World.app w))
                    (activeConversationId (World.app w)) id')) w)).
Proof.
  intros [Hnd Hact]. rewrite app_commit_delete.
  destruct (length _ =? 1)%nat eqn:Hlen; [done|].
  apply Nat.eqb_neq in Hlen.
  assert (1 < length (conversations (World.app w)))%nat as Hlen'.
  { apply listed_spec in Hact as (c & Hc & _).
    destruct (conversations (World.app w)); [done|]. cbn in *. lia. }
  pose proof (filtered_nonempty _ id' Hnd Hlen') as Hne.
  split; cbn.
  - by apply NoDup_map_filter.
  - apply listed_spec. destruct (bool_decide_reflect
      (activeConversationId (World.app w) = id')) as [Heq|Hneq].
    + destruct (List.filter _ _) as [|c rest] eqn:Hf; [done|].
      exists c. split; [by left|done].
    + apply listed_spec in Hact as (c & Hc & Hid). exists c. split; [|done].
      apply filter_In. split; [done|].
      apply negb_true_iff, bool_decide_eq_false. congruence.
Qed.

Lemma delete_preserves `{Platform} (w : World.State) (id' : jsstring) :
  well_formed (World.app w) ->
  well_formed (World.app (World.step (World.ClickDelete id') w)).
Proof.
  intros Hw. unfold World.step. cbn [World.handler World.settle].
  destruct (_ && _); [by apply deleteConversation_preserves|].
  by rewrite commit_inert.
Qed.

Lemma mount_first_visit `{Platform} (now : N) :
  World.mount ∅ now = Some (World.first_visit now).
Proof.
  unfold World.mount. rewrite !lookup_empty.
  cbn [App.conversations_initializer].
  by rewrite to_conversations_of_conversations.
Qed.

(** C1 (as stated, refuted): the state obtained by loading persisted data
    need not satisfy the invariant, since the persisted values are taken as
    they are.  A stored active identifier that no stored conversation has
    is loaded as the active identifier, and a stored empty collection is
    loaded as the collection. *)
Lemma loaded_state_breaks_invariant :
  (World.app <$> World.mount dangling_storage 5
   = Some {| conversations := [App.default_conversation 1];
             activeConversationId := str "chat-2-k3j9x2m1q" |}
   /\ ~ conversation_invariant
         {| conversations := [App.default_conversation 1];
            activeConversationId := str "chat-2-k3j9x2m1q" |})
  /\ (World.app <$> World.mount empty_storage 5
      = Some {| conversations := []; activeConversationId := str "chat_1" |}
      /\ ~ conversation_invariant
            {| conversations := []; activeConversationId := str "chat_1" |}).
Proof.
  split; (split; [by vm_compute|]).
  - intros [_ (c & [<-|[]] & Hid)]. by vm_compute in Hid.
  - by intros [Hne _].
Qed.

(** C1 (amended): on a first visit, and from any loaded state whose
    collection has pairwise distinct identifiers one of which is the active
    one, every sequence of [createConversation] and [deleteConversation]
    operations that draws fresh identifiers keeps the collection non-empty
    and the active identifier among its members; [deleteConversation] does
    so for any identifier it is called with. *)
Theorem create_delete_keep_invariant `{Platform} :
  (forall now,
      World.mount ∅ now = Some (World.first_visit now)
      /\ well_formed (World.app (World.first_visit now)))
  /\ (forall w id',
        well_formed (World.app w) ->
        well_formed
          (World.app
             (World.commit
                (calls (App.deleteConversation (conversations (World.app w))
                          (activeConversationId (World.app w)) id')) w)))
  /\ (forall w es,
        well_formed (World.app w) -> create_delete es w ->
        well_formed (World.app (World.run es w))
        /\ conversation_invariant (World.app (World.run es w))).
Proof.
  split; [|split].
  - intros now. split; [apply mount_first_visit|].
    split; cbn.
    + apply List.NoDup_cons; [by intros []|apply List.NoDup_nil].
    + by rewrite bool_decide_eq_true_2.
  - intros w id'. apply deleteConversation_preserves.
  - intros w es Hw Hes.
    enough (well_formed (World.app (World.run es w))) as Hwf.
    { split; [done|by apply well_formed_invariant]. }
    revert w Hw Hes. induction es as [|e es IH]; intros w Hw Hes; [done|].
    cbn in Hes. destruct Hes as [He Hes]. cbn. apply IH; [|done].
    destruct e as [chatName now rnd|id'| | | | | | | |]; try done.
    + apply create_preserves; [done|]. by destruct chatName.
    + by apply delete_preserves.
Qed.

Lemma create_delete_keep_invariant_witness :
  conversation_invariant
    (World.app
       (World.run
          [World.ClickNewChat (Some (str " Report #1! ")) 2000 (str "k3j9x2m1q");
           World.ClickDelete (id (App.default_conversation 1000))]
          (World.first_visit 1000))).
Proof.
  destruct (create_delete_keep_invariant (H:=browser))
    as (Hfirst & _ & Hrun).
  apply Hrun.
  - apply Hfirst.
  - cbn [create_delete]. split; [|split; [exact I|exact I]].
    intros Hin. vm_compute in Hin. destruct Hin as [Hin|[]]. discriminate Hin.
Defined.

(** ** Write-through persistence *)

Lemma fold_apply_fields (cs : list Cmd) (w : World.State) :
  World.localStorage (fold_left World.apply cs w) = World.localStorage w
  /\ World.pending (fold_left World.apply cs w) = World.pending w
  /\ World.uploaded (fold_left World.apply cs w) = World.uploaded w.
Proof.
  revert w. induction cs as [|c cs IH]; intros w; [done|]. cbn.
  destruct (IH (World.apply w c)) as (-> & -> & ->). by destruct c.
Qed.

Lemma conversations_fold_apply (cs : list Cmd) (w : World.State) :
  conversations (World.app (fold_left World.apply cs w))
  = updated cs (conversations (World.app w)).
Proof.
  revert w. induction cs as [|c cs IH]; intros w; [done|]. cbn.
  rewrite IH. by destruct c.
Qed.

Lemma updated_unset (cs : list Cmd) (convs : list Conversation) :
  existsb World.sets_conversations cs = false -> updated cs convs = convs.
Proof.
  revert convs. induction cs as [|c cs IH]; intros convs; [done|]. cbn.
  intros [Hc Hcs]%orb_false_elim. rewrite (IH _ Hcs). by destruct c.
Qed.

Lemma conversations_commit `{Platform} (cs : list Cmd) (w : World.State) :
  conversations (World.app (World.commit cs w))
  = updated cs (conversations (World.app w)).
Proof. rewrite app_commit. apply conversations_fold_apply. Qed.

Lemma pending_commit `{Platform} (cs : list Cmd) (w : World.State) :
  World.pending (World.commit cs w)
  = World.pending w
    ++ List.map (World.in_flight (World.app w)) (flat_map World.request cs).
Proof.
  unfold World.commit. cbn.
  by destruct (fold_apply_fields cs w) as (_ & -> & _).
Qed.

Lemma uploaded_commit `{Platform} (cs : list Cmd) (w : World.State) :
  World.uploaded (World.commit cs w) = World.uploaded w.
Proof.
  unfold World.commit. cbn.
  by destruct (fold_apply_fields cs w) as (_ & _ & ->).
Qed.

Lemma commit_in_sync `{Platform} (cs : list Cmd) (w : World.State) :
  in_sync w -> in_sync (World.commit cs w).
Proof.
  intros [Hconvs Hactive]. unfold in_sync.
  rewrite conversations_commit. unfold World.commit, World.effects. cbn.
  rewrite conversations_fold_apply.
  destruct (fold_apply_fields cs w) as (-> & _ & _).
  set (a' := activeConversationId (World.app (fold_left World.apply cs w))).
  destruct (existsb World.sets_conversations cs) eqn:Hset;
    destruct (bool_decide_reflect
                (a' = activeConversationId (World.app w))) as [Ha|Ha];
    rewrite ?Ha; simplify_map_eq; rewrite ?updated_unset by done; done.
Qed.

Lemma settle_in_sync `{Platform} (e : World.Event) (w : World.State) :
  in_sync w -> in_sync (World.settle e w).
Proof.
  intros Hw. destruct e as [| | | | | | |k s now|k s|k s]; try done; cbn;
    destruct (World.pending w !! k) as [[]|]; try done.
  by destruct s.
Qed.

Lemma mount_in_sync `{Platform} (ls : gmap string jsstring) (now : N)
    (w : World.State) :
  World.mount ls now = Some w -> in_sync w.
Proof.
  unfold World.mount. intros Hm.
  destruct (Json.to_conversations _) as [cs|]; [|done]. cbn in Hm.
  destruct (App.activeConversationId_initializer _ cs) as [a|]; [|done].
  injection Hm as <-. split; cbn; by simplify_map_eq.
Qed.

(** After the first render and after every event, both persisted values
    are those of the state of [App]. *)
Lemma persistence_is_write_through `{Platform} (w : World.State) :
  World.reachable w -> in_sync w.
Proof.
  induction 1 as [ls now w Hm|e w _ IH].
  - by eapply mount_in_sync.
  - by apply commit_in_sync, settle_in_sync.
Qed.

(** [handleClearChat] calls the setter of the view and nothing else. *)
Lemma handleClearChat_calls (confirmed : bool) (view : ChatWindow.State) :
  forallb inert (calls (ChatWindow.handleClearChat confirmed)) = true
  /\ ChatWindow.messages
       (ChatWindow.run (calls (ChatWindow.handleClearChat true)) view) = [].
Proof. by destruct confirmed. Qed.

Lemma step_ClickClearChat `{Platform} (confirmed : bool) (w : World.State) :
  World.step (World.ClickClearChat confirmed) w = w.
Proof. apply commit_inert. by destruct confirmed. Qed.

(** C7 (the code at the failing input): the visitor's conversation holds
    three messages; "Clear Chat", confirmed, empties the list that the chat
    window shows, while the collection and both persisted values stay as they
    were, so the next visit shows the messages again. *)
Theorem clear_chat_is_not_written_through :
  exists w,
    World.mount returning_storage 9 = Some w
    /\ let view := ChatWindow.mount (World.initialMessages (World.app w)) in
       let view' :=
         ChatWindow.run (calls (ChatWindow.handleClearChat true)) view in
       let w' := World.step (World.ClickClearChat true) w in
       ChatWindow.messages view = messages sample_conversation
       /\ ChatWindow.messages view' = []
       /\ conversations (World.app w') = [sample_conversation]
       /\ World.localStorage w' !! "rag_conversations"
          = Some (JSON_stringify (Json.of_conversations [sample_conversation]))
       /\ (ChatWindow.mount <$>
             (World.initialMessages <$>
                (World.app <$> World.mount (World.localStorage w') 10)))
          = Some (ChatWindow.mount (messages sample_conversation)).
Proof.
  eexists. split; [by vm_compute|]. repeat split; by vm_compute.
Qed.

(** ** What each event does to the state *)

Lemma conversations_step `{Platform} (e : World.Event) (w : World.State) :
  let cs := conversations (World.app w) in
  conversations (World.app (World.step e w))
  = match e with
    | World.ClickNewChat (Some raw) now rnd =>
        if truthy (App.sanitize raw)
        then cs ++ [created (App.sanitize raw) now rnd]
        else cs
    | World.ClickDelete id' =>
        if (1 <? length cs)%nat && World.listed id' cs
        then List.filter (fun c => negb (bool_decide (id c = id'))) cs
        else cs
    | World.Send input now =>
        if sendable input w
        then appended (activeConversationId (World.app w))
               (userMessage input now) cs
        else cs
    | World.QuerySettled k settled now =>
        match World.pending w !! k with
        | Some (World.PendingQuery chat) => appended chat (reply settled now) cs
        | _ => cs
        end
    | World.UploadSettled k (inl _) =>
        match World.pending w !! k with
        | Some (World.PendingUpload _ r) =>
            marked (activeConversationId r) (conversations r)
        | _ => cs
        end
    | World.ResetSettled k (inl _) =>
        match World.pending w !! k with
        | Some (World.PendingReset _ r) =>
            cleared (activeConversationId r) (conversations r)
        | _ => cs
        end
    | _ => cs
    end.
Proof.
  intros cs. destruct e as [chatName now rnd|id'|id'|input now|confirmed
                            |file|confirmed|k settled now|k settled|k settled].
  - pose proof (app_step_create w chatName now rnd) as ->.
    destruct chatName as [raw|]; [|done].
    by destruct (truthy (App.sanitize raw)).
  - pose proof (app_step_delete w id') as ->. fold cs.
    by destruct ((1 <? length cs)%nat && World.listed id' cs).
  - unfold World.step. rewrite conversations_commit. cbn.
    by destruct (World.listed id' _).
  - unfold World.step. rewrite conversations_commit. cbn.
    unfold ChatWindow.handleSend, sendable.
    destruct (truthy (trim input)); [|done].
    destruct (World.hasDocuments_prop _); [|done].
    by destruct (World.isLoading w).
  - by rewrite step_ClickClearChat.
  - unfold World.step. rewrite conversations_commit. cbn.
    destruct (World.uploading w); [done|].
    by destruct file.
  - unfold World.step. rewrite conversations_commit. cbn.
    by destruct confirmed.
  - unfold World.step. rewrite conversations_commit. cbn.
    destruct (World.pending w !! k) as [[chat| |]|]; try done.
    destruct settled as [data|err]; [done|]. cbn.
    unfold appended, reply, errorMessage, or_else.
    by destruct err as [msg [[|]|]].
  - unfold World.step. rewrite conversations_commit. cbn.
    by destruct (World.pending w !! k) as [[|chat r|]|]; destruct settled.
  - unfold World.step. rewrite conversations_commit. cbn.
    by destruct (World.pending w !! k) as [[| |chat r]|]; destruct settled.
Qed.

Ltac step_handler :=
  unfold World.step, World.commit, World.effects;
  cbn [World.handler World.settle].

Lemma isLoading_commit `{Platform} (cs : list Cmd) (w : World.State) :
  World.isLoading (World.commit cs w)
  = World.isLoading (fold_left World.apply cs w).
Proof. reflexivity. Qed.

Lemma isLoading_step `{Platform} (e : World.Event) (w : World.State) :
  World.isLoading (World.step e w)
  = match e with
    | World.Send input _ => if sendable input w then true else World.isLoading w
    | World.QuerySettled k _ _ =>
        match World.pending w !! k with
        | Some (World.PendingQuery _) => false
        | _ => World.isLoading w
        end
    | _ => World.isLoading w
    end.
Proof.
  destruct e as [chatName now rnd|id'|id'|input now|confirmed
                |file|confirmed|k settled now|k settled|k settled];
    unfold World.step; rewrite isLoading_commit;
    cbn [World.handler World.settle].
  - destruct chatName as [raw|]; [|by cbn]. unfold App.createConversation.
    destruct (truthy raw); [|by cbn]. destruct (truthy (trim raw)); [|by cbn].
    by destruct (truthy (App.sanitize raw)); cbn.
  - destruct ((1 <? _)%nat && _); [|by cbn]. unfold App.deleteConversation.
    destruct (length _ =? 1)%nat; [by cbn|].
    destruct (bool_decide _); [|by cbn]. by destruct (List.filter _ _); cbn.
  - by destruct (World.listed _ _).
  - unfold ChatWindow.handleSend, sendable.
    destruct (truthy (trim input)); [|by cbn].
    destruct (World.hasDocuments_prop _); [|by cbn].
    destruct (World.isLoading w) eqn:Hl; cbn; by rewrite ?Hl.
  - by destruct confirmed.
  - destruct (World.uploading w); [by cbn|]. by destruct file.
  - by destruct confirmed.
  - destruct (World.pending w !! k) as [[chat| |]|]; try done.
    by destruct settled.
  - by destruct (World.pending w !! k) as [[|chat r|]|]; destruct settled.
  - by destruct (World.pending w !! k) as [[| |chat r]|]; destruct settled.
Qed.

Lemma pending_step `{Platform} (e : World.Event) (w : World.State) :
  let a := activeConversationId (World.app w) in
  World.pending (World.step e w)
  = match e with
    | World.Send input _ =>
        if sendable input w
        then World.pending w ++ [World.PendingQuery a]
        else World.pending w
    | World.SelectFile (Some _) =>
        if World.uploading w then World.pending w
        else World.pending w ++ [World.PendingUpload a (World.app w)]
    | World.ClickReset true =>
        World.pending w ++ [World.PendingReset a (World.app w)]
    | World.QuerySettled k _ _ =>
        match World.pending w !! k with
        | Some (World.PendingQuery _) => delete k (World.pending w)
        | _ => World.pending w
        end
    | World.UploadSettled k _ =>
        match World.pending w !! k with
        | Some (World.PendingUpload _ _) => delete k (World.pending w)
        | _ => World.pending w
        end
    | World.ResetSettled k _ =>
        match World.pending w !! k with
        | Some (World.PendingReset _ _) => delete k (World.pending w)
        | _ => World.pending w
        end
    | _ => World.pending w
    end.
Proof.
  intros a.
  destruct e as [chatName now rnd|id'|id'|input now|confirmed
                |file|confirmed|k settled now|k settled|k settled];
    unfold World.step; rewrite pending_commit;
    cbn [World.handler World.settle].
  - destruct chatName as [raw|]; [|by rewrite app_nil_r].
    unfold App.createConversation.
    destruct (truthy raw); [|by rewrite app_nil_r].
    destruct (truthy (trim raw)); [|by rewrite app_nil_r].
    destruct (truthy (App.sanitize raw)); by rewrite app_nil_r.
  - destruct ((1 <? _)%nat && _); [|by rewrite app_nil_r].
    unfold App.deleteConversation.
    destruct (length _ =? 1)%nat; [by rewrite app_nil_r|].
    destruct (bool_decide _); [|by rewrite app_nil_r].
    destruct (List.filter _ _); by rewrite app_nil_r.
  - destruct (World.listed _ _); by rewrite app_nil_r.
  - unfold ChatWindow.handleSend, sendable.
    destruct (truthy (trim input)); [|by rewrite app_nil_r].
    destruct (World.hasDocuments_prop _); [|by rewrite app_nil_r].
    destruct (World.isLoading w); [by rewrite app_nil_r|done].
  - destruct confirmed; by rewrite app_nil_r.
  - destruct (World.uploading w); [destruct file; by rewrite app_nil_r|].
    destruct file; [done|by rewrite app_nil_r].
  - destruct confirmed; [done|by rewrite app_nil_r].
  - destruct (World.pending w !! k) as [[chat| |]|]; try by rewrite app_nil_r.
    destruct settled; by rewrite app_nil_r.
  - destruct (World.pending w !! k) as [[|chat r|]|]; destruct settled;
      by rewrite app_nil_r.
  - destruct (World.pending w !! k) as [[| |chat r]|]; destruct settled;
      by rewrite app_nil_r.
Qed.

Lemma uploaded_step `{Platform} (e : World.Event) (w : World.State) :
  World.uploaded (World.step e w)
  = match e with
    | World.UploadSettled k (inl _) =>
        match World.pending w !! k with
        | Some (World.PendingUpload chat _) => chat :: World.uploaded w
        | _ => World.uploaded w
        end
    | _ => World.uploaded w
    end.
Proof.
  unfold World.step. rewrite uploaded_commit.
  destruct e as [| | | | | | |k settled now|k settled|k settled]; try done;
    cbn; destruct (World.pending w !! k) as [[]|]; try done;
    by destruct settled.
Qed.

Lemma activeConversationId_step `{Platform} (e : World.Event)
    (w : World.State) :
  let cs := conversations (World.app w) in
  let a := activeConversationId (World.app w) in
  activeConversationId (World.app (World.step e w))
  = match e with
    | World.ClickNewChat (Some raw) now rnd =>
        if truthy (App.sanitize raw)
        then id (created (App.sanitize raw) now rnd)
        else a
    | World.ClickDelete id' =>
        if (1 <? length cs)%nat && World.listed id' cs
           && bool_decide (a = id') then
          match List.filter (fun c => negb (bool_decide (id c = id'))) cs with
          | c :: _ => id c
          | [] => a
          end
        else a
    | World.ClickConversation id' => if World.listed id' cs then id' else a
    | _ => a
    end.
Proof.
  intros cs a.
  destruct e as [chatName now rnd|id'|id'|input now|confirmed
                |file|confirmed|k settled now|k settled|k settled].
  - pose proof (app_step_create w chatName now rnd) as ->.
    destruct chatName as [raw|]; [|done].
    by destruct (truthy (App.sanitize raw)).
  - pose proof (app_step_delete w id') as ->. fold cs a.
    destruct ((1 <? length cs)%nat && World.listed id' cs); [|done].
    by destruct (bool_decide (a = id')).
  - step_handler. by destruct (World.listed _ _).
  - step_handler. unfold ChatWindow.handleSend.
    destruct (truthy (trim input)); [|done].
    destruct (World.hasDocuments_prop _); [|done].
    by destruct (World.isLoading w).
  - by rewrite step_ClickClearChat.
  - step_handler. destruct (World.uploading w); [done|]. by destruct file.
  - step_handler. by destruct confirmed.
  - step_handler. destruct (World.pending w !! k) as [[chat| |]|]; try done.
    by destruct settled.
  - step_handler.
    by destruct (World.pending w !! k) as [[|chat r|]|]; destruct settled.
  - step_handler.
    by destruct (World.pending w !! k) as [[| |chat r]|]; destruct settled.
Qed.

(** ** Invariants of the running application *)

Lemma In_delete {A} (k : nat) (l : list A) (x : A) :
  In x (delete k l) -> In x l.
Proof.
  revert k. induction l as [|y l IH]; intros [|k]; cbn; try tauto.
  intros [->|Hx]; [by left|right; by eapply IH].
Qed.

Lemma filter_delete_other {A} (p : A -> bool) (k : nat) (l : list A) (x : A) :
  l !! k = Some x -> p x = false ->
  List.filter p (delete k l) = List.filter p l.
Proof.
  revert k. induction l as [|y l IH]; intros [|k]; try done.
  - cbn. intros [= ->] ->. done.
  - intros Hk Hx. change (delete (S k) (y :: l)) with (y :: delete k l).
    cbn [List.filter]. by rewrite (IH k Hk Hx).
Qed.

Lemma filter_delete_one {A} (p : A -> bool) (k : nat) (l : list A) (x : A) :
  l !! k = Some x -> p x = true ->
  length (List.filter p l) = S (length (List.filter p (delete k l))).
Proof.
  revert k. induction l as [|y l IH]; intros [|k]; try done.
  - cbn. intros [= ->] ->. done.
  - intros Hk Hx. change (delete (S k) (y :: l)) with (y :: delete k l).
    cbn [List.filter]. destruct (p y); cbn [length]; by rewrite (IH k Hk Hx).
Qed.

Lemma lookup_In {A} (k : nat) (l : list A) (x : A) :
  l !! k = Some x -> In x l.
Proof.
  revert k. induction l as [|y l IH]; intros [|k]; cbn; try done.
  - intros [= ->]. by left.
  - intros Hk. right. by eapply IH.
Qed.

Lemma In_pending_step `{Platform} (e : World.Event) (w : World.State)
    (p : World.Pending) :
  In p (World.pending (World.step e w)) ->
  In p (World.pending w)
  \/ p = World.PendingQuery (activeConversationId (World.app w))
  \/ p = World.PendingUpload (activeConversationId (World.app w)) (World.app w)
  \/ p = World.PendingReset (activeConversationId (World.app w)) (World.app w).
Proof.
  rewrite pending_step.
  destruct e as [| | |input now| |[f|]|[|]|k ? ?|k ?|k ?]; try tauto.
  - destruct (sendable input w); [|tauto].
    intros Hp. apply in_app_iff in Hp as [Hp|[<-|[]]]; tauto.
  - destruct (World.uploading w); [tauto|].
    intros Hp. apply in_app_iff in Hp as [Hp|[<-|[]]]; tauto.
  - intros Hp. apply in_app_iff in Hp as [Hp|[<-|[]]]; tauto.
  - destruct (World.pending w !! k) as [[]|]; try tauto.
    intros Hp%In_delete. tauto.
  - destruct (World.pending w !! k) as [[]|]; try tauto.
    intros Hp%In_delete. tauto.
  - destruct (World.pending w !! k) as [[]|]; try tauto.
    intros Hp%In_delete. tauto.
Qed.

Lemma closures_bound_step `{Platform} (e : World.Event) (w : World.State) :
  closures_bound w -> closures_bound (World.step e w).
Proof.
  intros Hw p chat_id r Hp Hc.
  apply In_pending_step in Hp as [Hp|[-> |[-> | ->]]].
  - by eapply Hw.
  - done.
  - by injection Hc as <- <-.
  - by injection Hc as <- <-.
Qed.

Lemma one_query_at_a_time_step `{Platform} (e : World.Event)
    (w : World.State) :
  one_query_at_a_time w -> one_query_at_a_time (World.step e w).
Proof.
  unfold one_query_at_a_time. intros Hw.
  rewrite pending_step, isLoading_step.
  destruct e as [| | |input now| |[f|]|[|]|k ? ?|k ?|k ?]; try done.
  - unfold sendable in *. destruct (World.isLoading w).
    + by rewrite andb_false_r.
    + rewrite andb_true_r.
      destruct (truthy (trim input) && World.hasDocuments_prop _); [|done].
      rewrite List.filter_app, List.length_app, Hw. done.
  - destruct (World.uploading w); [done|].
    by rewrite List.filter_app, List.length_app, Hw, Nat.add_0_r.
  - by rewrite List.filter_app, List.length_app, Hw, Nat.add_0_r.
  - destruct (World.pending w !! k) as [[chat| |]|] eqn:Hk; try done.
    pose proof (filter_delete_one is_query k _ _ Hk eq_refl) as Hlen.
    rewrite Hw in Hlen. destruct (World.isLoading w); [lia|done].
  - destruct (World.pending w !! k) as [[]|] eqn:Hk; try done.
    by rewrite (filter_delete_other is_query k _ _ Hk eq_refl).
  - destruct (World.pending w !! k) as [[]|] eqn:Hk; try done.
    by rewrite (filter_delete_other is_query k _ _ Hk eq_refl).
Qed.

Lemma In_appended (chat : jsstring) (m : Message) (cs : list Conversation)
    (c' : Conversation) :
  In c' (appended chat m cs) ->
  exists c, In c cs /\ id c' = id c /\ hasDocuments c' = hasDocuments c.
Proof.
  intros (c & <- & Hc)%in_map_iff. exists c. split; [done|].
  by destruct (bool_decide _).
Qed.

Lemma In_marked (chat : jsstring) (cs : list Conversation)
    (c' : Conversation) :
  In c' (marked chat cs) ->
  In c' cs \/ (id c' = chat /\ hasDocuments c' = true).
Proof.
  intros (c & <- & Hc)%in_map_iff.
  destruct (bool_decide_reflect (id c = chat)); [by right|by left].
Qed.

Lemma In_cleared (chat : jsstring) (cs : list Conversation)
    (c' : Conversation) :
  In c' (cleared chat cs) -> In c' cs \/ hasDocuments c' = false.
Proof.
  intros (c & <- & Hc)%in_map_iff.
  destruct (bool_decide _); [by right|by left].
Qed.

Lemma uploaded_grows `{Platform} (e : World.Event) (w : World.State)
    (x : jsstring) :
  In x (World.uploaded w) -> In x (World.uploaded (World.step e w)).
Proof.
  rewrite uploaded_step. destruct e as [| | | | | | | |k [|]|]; try done.
  destruct (World.pending w !! k) as [[]|]; try done. by right.
Qed.

Lemma documents_were_uploaded_step `{Platform} (e : World.Event)
    (w : World.State) :
  closures_bound w -> documents_were_uploaded w ->
  documents_were_uploaded (World.step e w).
Proof.
  intros Hb [Hstate Hclosures]. split.
  - intros c'. rewrite conversations_step.
    destruct e as [[raw|] now rnd|id'| |input now| | | |k settled now
                  |k [data|err]|k [[]|err]];
      try (intros; by apply uploaded_grows, Hstate).
    + destruct (truthy (App.sanitize raw));
        [|intros; by apply uploaded_grows, Hstate].
      intros [Hc|[<-|[]]]%in_app_iff; [|done].
      intros. by apply uploaded_grows, Hstate.
    + destruct (_ && _); [|intros; by apply uploaded_grows, Hstate].
      intros [Hc _]%filter_In ?. by apply uploaded_grows, Hstate.
    + destruct (sendable input w);
        [|intros; by apply uploaded_grows, Hstate].
      intros (c & Hc & -> & ->)%In_appended ?.
      by apply uploaded_grows, Hstate.
    + destruct (World.pending w !! k) as [[chat| |]|];
        try (intros; by apply uploaded_grows, Hstate).
      intros (c & Hc & -> & ->)%In_appended ?.
      by apply uploaded_grows, Hstate.
    + destruct (World.pending w !! k) as [[|chat r|]|] eqn:Hk;
        try (intros; by apply uploaded_grows, Hstate).
      rewrite uploaded_step, Hk. apply lookup_In in Hk.
      intros [Hc|[Hid _]]%In_marked Hdocs.
      * right. by eapply (Hclosures _ chat r).
      * left. rewrite Hid. by eapply (Hb _ chat r).
    + destruct (World.pending w !! k) as [[| |chat r]|] eqn:Hk;
        try (intros; by apply uploaded_grows, Hstate).
      intros [Hc|Hc]%In_cleared Hdocs; [|congruence].
      apply uploaded_grows. apply lookup_In in Hk.
      by eapply (Hclosures _ chat r).
  - intros p chat_id r c Hp Hc Hin Hdocs. apply uploaded_grows.
    apply In_pending_step in Hp as [Hp|[-> |[-> | ->]]].
    + by eapply Hclosures.
    + done.
    + injection Hc as <- <-. by apply Hstate.
    + injection Hc as <- <-. by apply Hstate.
Qed.

Lemma mount_consistent `{Platform} (ls : gmap string jsstring) (now : N)
    (w : World.State) :
  World.mount ls now = Some w -> consistent w.
Proof.
  unfold World.mount. intros Hm.
  destruct (Json.to_conversations _) as [cs|]; [|done]. cbn in Hm.
  destruct (App.activeConversationId_initializer _ cs) as [a|]; [|done].
  injection Hm as <-. split; [|split; [|split]].
  - by intros p chat_id r [].
  - done.
  - intros c Hc Hdocs. cbn. apply in_map. by apply filter_In.
  - by intros p chat_id r c [].
Qed.

Lemma reachable_consistent `{Platform} (w : World.State) :
  World.reachable w -> consistent w.
Proof.
  induction 1 as [ls now w Hm|e w _ (Hb & Hq & Hd)].
  - by eapply mount_consistent.
  - repeat split.
    + by apply closures_bound_step.
    + by apply one_query_at_a_time_step.
    + by apply documents_were_uploaded_step.
    + by apply documents_were_uploaded_step.
Qed.

(** ** Requests *)

Lemma requests_step (e : World.Event) (w : World.State) :
  let a := activeConversationId (World.app w) in
  World.requests e w
  = match e with
    | World.Send input _ =>
        if sendable input w
        then [QueryRequest (trim input) a (World.chatName (World.app w))]
        else []
    | World.SelectFile (Some f) =>
        if World.uploading w then []
        else [UploadRequest f a (form_chat_name (World.chatName (World.app w)))]
    | World.ClickReset true => [ResetRequest a]
    | _ => []
    end.
Proof.
  intros a. unfold World.requests.
  destruct e as [chatName now rnd|id'|id'|input now|confirmed
                |file|confirmed|k settled now|k settled|k settled];
    cbn [World.handler].
  - destruct chatName as [raw|]; [|done]. unfold App.createConversation.
    destruct (truthy raw); [|done]. destruct (truthy (trim raw)); [|done].
    by destruct (truthy (App.sanitize raw)).
  - destruct ((1 <? _)%nat && _); [|done]. unfold App.deleteConversation.
    destruct (length _ =? 1)%nat; [done|].
    destruct (bool_decide _); [|done]. by destruct (List.filter _ _).
  - by destruct (World.listed _ _).
  - unfold ChatWindow.handleSend, sendable.
    destruct (truthy (trim input)); [|done].
    destruct (World.hasDocuments_prop _); [|done].
    by destruct (World.isLoading w).
  - by destruct confirmed.
  - destruct (World.uploading w); [by destruct file|]. by destruct file.
  - by destruct confirmed.
  - destruct (World.pending w !! k) as [[chat| |]|]; try done.
    by destruct settled.
  - by destruct (World.pending w !! k) as [[|chat r|]|]; destruct settled.
  - by destruct (World.pending w !! k) as [[| |chat r]|]; destruct settled.
Qed.

Lemma activeConversation_spec (cs : list Conversation) (a : jsstring)
    (c : Conversation) :
  App.activeConversation cs a = Some c -> In c cs /\ id c = a.
Proof.
  intros [Hc Hid]%find_some. split; [done|].
  by apply bool_decide_eq_true in Hid.
Qed.

Lemma no_query_not_loading (w : World.State) :
  one_query_at_a_time w ->
  (forall chat, ~ In (World.PendingQuery chat) (World.pending w)) ->
  World.isLoading w = false.
Proof.
  unfold one_query_at_a_time. intros Hw Hnone.
  destruct (World.isLoading w); [|done]. exfalso.
  destruct (List.filter is_query (World.pending w)) as [|p l] eqn:Hf; [done|].
  assert (In p (List.filter is_query (World.pending w))) as [Hp Hq]%filter_In.
  { rewrite Hf. by left. }
  destruct p; try done. by eapply Hnone.
Qed.

Lemma query_pending_loading (w : World.State) (chat : jsstring) :
  one_query_at_a_time w ->
  In (World.PendingQuery chat) (World.pending w) ->
  World.isLoading w = true.
Proof.
  unfold one_query_at_a_time. intros Hw Hin.
  destruct (World.isLoading w); [done|].
  assert (In (World.PendingQuery chat)
             (List.filter is_query (World.pending w))) as Hf.
  { by apply filter_In. }
  by destruct (List.filter is_query (World.pending w)).
Qed.

Lemma marked_has_documents (chat : jsstring) (cs : list Conversation) :
  World.listed chat cs = true ->
  World.hasDocuments_prop
    {| conversations := marked chat cs; activeConversationId := chat |} = true.
Proof.
  unfold World.hasDocuments_prop, App.activeConversation, World.listed. cbn.
  induction cs as [|c cs IH]; [done|]. cbn.
  destruct (bool_decide_reflect (id c = chat)) as [Hc|Hc]; cbn.
  - by rewrite bool_decide_eq_true_2.
  - by rewrite bool_decide_eq_false_2.
Qed.

Lemma loading_iff_query_pending (w : World.State) :
  one_query_at_a_time w ->
  World.isLoading w = existsb is_query (World.pending w).
Proof.
  intros Hw. destruct (existsb is_query (World.pending w)) eqn:He.
  - apply existsb_exists in He as (p & Hp & Hq).
    destruct p as [chat| |]; try done. by eapply query_pending_loading.
  - apply no_query_not_loading; [done|]. intros chat Hin.
    assert (existsb is_query (World.pending w) = true) as He'.
    { apply existsb_exists. by exists (World.PendingQuery chat). }
    by rewrite He in He'.
Qed.

(** C8: a query request is sent only for the active conversation, only when
    that conversation has documents (so only after an upload for it has
    succeeded, in this visit or as the persisted collection records) and
    only when no query is in flight for any conversation: the window has one
    loading flag.  Without documents [Send] sends nothing; while a query is
    in flight, for this conversation or for another, [Send] sends nothing;
    once the upload for the active conversation has succeeded and no query
    is in flight for any conversation, [Send] with a non-blank input sends
    the query.  Altogether [Send] sends its query exactly when the input is
    not blank, the active conversation has documents and no query is in
    flight for any conversation. *)
Theorem queries_are_gated `{Platform} (w : World.State) :
  World.reachable w ->
  (forall e question chat chat_name,
      In (QueryRequest question chat chat_name) (World.requests e w) ->
      (exists c,
          App.activeConversation (conversations (World.app w)) chat = Some c
          /\ chat = activeConversationId (World.app w)
          /\ hasDocuments c = true)
      /\ (forall chat', ~ In (World.PendingQuery chat') (World.pending w))
      /\ In chat (World.uploaded w))
  /\ (forall input now,
        World.hasDocuments_prop (World.app w) = false ->
        World.requests (World.Send input now) w = [])
  /\ (forall chat input now,
        In (World.PendingQuery chat) (World.pending w) ->
        World.requests (World.Send input now) w = [])
  /\ (forall k chat r data input now,
        World.pending w !! k = Some (World.PendingUpload chat r) ->
        World.listed chat (conversations r) = true ->
        activeConversationId (World.app w) = chat ->
        (forall chat', ~ In (World.PendingQuery chat') (World.pending w)) ->
        trim input <> [] ->
        let w' := World.step (World.UploadSettled k (inl data)) w in
        World.hasDocuments_prop (World.app w') = true
        /\ World.requests (World.Send input now) w'
           = [QueryRequest (trim input) chat (World.chatName (World.app w'))])
  /\ (forall input now,
        World.requests (World.Send input now) w
        = if truthy (trim input) && World.hasDocuments_prop (World.app w)
             && negb (existsb is_query (World.pending w))
          then [QueryRequest (trim input) (activeConversationId (World.app w))
                  (World.chatName (World.app w))]
          else []).
Proof.
  intros Hreach. destruct (reachable_consistent w Hreach) as (Hb & Hq & Hd).
  split; [|split; [|split; [|split]]]; cycle 4.
  { intros input now. rewrite requests_step. unfold sendable.
    by rewrite (loading_iff_query_pending w Hq). }
  - intros e question chat chat_name. rewrite requests_step.
    destruct e as [| | |input now| |[f|]|[|]| | |]; try done.
    + destruct (sendable input w) eqn:Hs; [|done].
      intros [[= <- <- <-]|[]].
      apply andb_prop in Hs as [[_ Hdocs]%andb_prop Hload%negb_true_iff].
      unfold World.hasDocuments_prop in Hdocs.
      destruct (App.activeConversation _ _) as [c|] eqn:Hc; [|done].
      cbn in Hdocs. repeat split.
      * by exists c.
      * intros chat' Hin.
        by rewrite (query_pending_loading w chat' Hq Hin) in Hload.
      * apply activeConversation_spec in Hc as [Hin <-].
        by apply (proj1 Hd).
    + destruct (World.uploading w); [done|]. by intros [|[]].
    + by intros [|[]].
  - intros input now Hdocs. rewrite requests_step. unfold sendable.
    by rewrite Hdocs, andb_false_r.
  - intros chat input now Hin. rewrite requests_step. unfold sendable.
    by rewrite (query_pending_loading w chat Hq Hin), andb_false_r.
  - intros k chat r data input now Hk Hlisted Hactive Hnone Hinput w'.
    assert (chat = activeConversationId r) as Hchat.
    { eapply Hb; [by eapply lookup_In|done]. }
    assert (World.app w'
            = {| conversations := marked chat (conversations r);
                 activeConversationId := chat |}) as Happ.
    { pose proof (conversations_step (World.UploadSettled k (inl data)) w)
        as Hconvs.
      pose proof (activeConversationId_step
                    (World.UploadSettled k (inl data)) w) as Hact.
      cbv beta iota zeta in Hconvs, Hact. rewrite Hk in Hconvs.
      fold w' in Hconvs, Hact.
      destruct (World.app w') as [cs' a']. cbn in Hconvs, Hact. congruence. }
    assert (World.hasDocuments_prop (World.app w') = true) as Hdocs.
    { rewrite Happ. by apply marked_has_documents. }
    split; [done|]. rewrite requests_step. unfold sendable.
    rewrite Hdocs. unfold w'. rewrite isLoading_step.
    rewrite (no_query_not_loading w Hq Hnone). fold w'. rewrite Happ. cbn.
    by destruct (trim input).
Qed.

Lemma queries_are_gated_witness :
  let w := World.step (World.SelectFile (Some (str "report.pdf")))
             (World.first_visit 1000) in
  let w' := World.step (World.UploadSettled 0 (inl sample_upload)) w in
  World.requests (World.Send (str " hi ") (str "2024-05-01T10:00:00.000Z")) w
  = []
  /\ World.requests (World.Send (str " hi ") (str "2024-05-01T10:00:00.000Z")) w'
     = [QueryRequest (str "hi") (id (App.default_conversation 1000))
          (World.chatName (World.app w'))].
Proof.
  intros w w'.
  assert (World.reachable w) as Hw.
  { apply World.reachable_step, (World.reachable_mount ∅ 1000).
    apply mount_first_visit. }
  destruct (queries_are_gated w Hw) as (_ & Hblocked & _ & Hpermitted & _).
  split.
  - apply Hblocked. reflexivity.
  - apply (Hpermitted 0%nat (id (App.default_conversation 1000))
             (World.app (World.first_visit 1000)) sample_upload
             (str " hi ")).
    + reflexivity.
    + reflexivity.
    + reflexivity.
    + intros chat' Hin. vm_compute in Hin. by destruct Hin as [Hin|[]].
    + discriminate.
Defined.

(** A query in flight for one conversation blocks the queries of another:
    a question is asked in the visitor's conversation; before the reply a
    chat is created and a file uploaded for it, with success.  The new
    conversation is active and has documents, an upload for it has
    succeeded and the only query in flight is for the other conversation;
    yet [Send] sends nothing, as the loading flag is up. *)
Lemma query_in_flight_elsewhere_blocks_send :
  let w :=
    World.run [World.Send (str "hello") (str "2024-05-01T10:05:00.000Z");
               World.ClickNewChat (Some (str "Notes")) 2000 (str "k3j9x2m1q");
               World.SelectFile (Some (str "notes.pdf"));
               World.UploadSettled 1 (inl sample_upload)] returning_visit in
  let b := id (created (str "Notes") 2000 (str "k3j9x2m1q")) in
  activeConversationId (World.app w) = b
  /\ b <> id sample_conversation
  /\ World.hasDocuments_prop (World.app w) = true
  /\ In b (World.uploaded w)
  /\ World.pending w = [World.PendingQuery (id sample_conversation)]
  /\ World.isLoading w = true
  /\ World.requests (World.Send (str " hi ") (str "2024-05-01T10:06:00.000Z")) w
     = [].
Proof.
  intros w b.
  split; [by vm_compute|]. split; [by vm_compute|].
  split; [by vm_compute|]. split; [vm_compute; by left|].
  split; [by vm_compute|]. split; by vm_compute.
Qed.

(** ** Sending a question *)

(** C10: when the trimmed input is empty [handleSend] makes no call at all,
    so no message is appended and no request is sent.  When it is not empty,
    the conversation has documents and no query is in flight, the calls are,
    in this order: append the user message (text: the trimmed input, by the
    user) to the view, append it to the conversation of this chat, clear the
    input, set the loading flag, send the query. *)
Theorem handleSend_trims_and_appends_first
    (chatId : jsstring) (chatName : option jsstring)
    (input now : jsstring) :
  (forall hasDocuments isLoading onAddMessage,
      trim input = [] ->
      calls (ChatWindow.handleSend chatId chatName hasDocuments onAddMessage
               input isLoading now) = [])
  /\ (trim input <> [] ->
      text (userMessage input now) = trim input
      /\ isUser (userMessage input now) = true
      /\ calls (ChatWindow.handleSend chatId chatName true
                  (Some App.addMessageToConversation) input false now)
         = [SetMessages (fun prev => prev ++ [userMessage input now]);
            SetConversations (appended chatId (userMessage input now));
            SetInput [];
            SetIsLoading true;
            Post (QueryRequest (trim input) chatId chatName)])
  /\ (forall `{Platform} (w : World.State),
        trim input = [] -> World.step (World.Send input now) w = w)
  /\ (forall `{Platform} (w : World.State),
        trim input <> [] ->
        World.hasDocuments_prop (World.app w) = true ->
        World.isLoading w = false ->
        conversations (World.app (World.step (World.Send input now) w))
        = appended (activeConversationId (World.app w))
            (userMessage input now) (conversations (World.app w))
        /\ World.pending (World.step (World.Send input now) w)
           = World.pending w
             ++ [World.PendingQuery (activeConversationId (World.app w))]).
Proof.
  split; [|split; [|split]].
  - intros hasDocuments isLoading onAddMessage Ht.
    unfold ChatWindow.handleSend. by rewrite Ht.
  - intros Ht. repeat split. unfold ChatWindow.handleSend, userMessage.
    destruct (trim input); [done|reflexivity].
  - intros P w Ht. unfold World.step. apply commit_inert. cbn.
    unfold ChatWindow.handleSend. by rewrite Ht.
  - intros P w Ht Hdocs Hload.
    assert (sendable input w = true) as Hs.
    { unfold sendable. rewrite Hdocs, Hload. by destruct (trim input). }
    rewrite conversations_step, pending_step. by rewrite Hs.
Qed.

Lemma handleSend_trims_and_appends_first_witness :
  calls (ChatWindow.handleSend (id sample_conversation) (Some (str "Report 1"))
           true (Some App.addMessageToConversation) (str "   ") false
           (str "2024-05-01T10:02:00.000Z"))
  = []
  /\ text (userMessage (str "  And then? ") (str "2024-05-01T10:02:00.000Z"))
     = str "And then?".
Proof.
  split.
  - apply (handleSend_trims_and_appends_first (id sample_conversation)
             (Some (str "Report 1")) (str "   ")
             (str "2024-05-01T10:02:00.000Z")).
    reflexivity.
  - apply (handleSend_trims_and_appends_first (id sample_conversation)
             (Some (str "Report 1")) (str "  And then? ")
             (str "2024-05-01T10:02:00.000Z")).
    discriminate.
Defined.

(** ** A failing query *)

Lemma appended_lookup (chat : jsstring) (m : Message)
    (cs : list Conversation) (i : nat) (c : Conversation) :
  nth_error cs i = Some c ->
  nth_error (appended chat m cs) i
  = Some (if bool_decide (id c = chat)
          then App.with_messages (messages c ++ [m]) c
          else c).
Proof. intros Hc. unfold appended. by rewrite nth_error_map, Hc. Qed.

(** C5 (as stated, refuted): a failed response whose [detail] field is
    present and empty does not give the error message that text; the
    generic text is used. *)
Lemma empty_detail_is_replaced :
  detail empty_detail_error = Some []
  /\ List.map text
       (ChatWindow.messages
          (ChatWindow.run
             (calls (ChatWindow.handleSend_resume (id sample_conversation)
                       (Some App.addMessageToConversation)
                       (inr empty_detail_error)
                       (str "2024-05-01T10:02:03.000Z")))
             (ChatWindow.mount [])))
     = [generic_error]
  /\ generic_error <> [].
Proof. by repeat split. Qed.

(** C5 (amended): when the request of a query settles with a failure, the
    handler returns without throwing, and exactly one message is appended to
    every conversation of the collection that has the chat's identifier: an
    assistant message with [isError] set whose text is the [detail] of the
    response when that is present and not empty, and the generic text
    otherwise.  All other conversations stay as they are. *)
Theorem failed_query_appends_one_error_message `{Platform}
    (w : World.State) (k : nat) (chat : jsstring) (err : JSError)
    (now : jsstring) :
  World.pending w !! k = Some (World.PendingQuery chat) ->
  let handler := World.handler (World.QuerySettled k (inr err) now) w in
  let m := errorMessage err now in
  let cs := conversations (World.app w) in
  let cs' :=
    conversations (World.app (World.step (World.QuerySettled k (inr err) now) w)) in
  returns handler = true
  /\ calls handler
     = [ConsoleError (str "Error querying:");
        SetMessages (fun prev => prev ++ [m]);
        SetConversations (appended chat m);
        SetIsLoading false]
  /\ isUser m = false /\ isError m = true
  /\ text m = match detail err with
              | Some detail => if truthy detail then detail else generic_error
              | None => generic_error
              end
  /\ length cs' = length cs
  /\ forall i c,
       nth_error cs i = Some c ->
       nth_error cs' i
       = Some (if bool_decide (id c = chat)
               then App.with_messages (messages c ++ [m]) c
               else c).
Proof.
  intros Hk handler m cs cs'.
  assert (cs' = appended chat m cs) as ->.
  { unfold cs'. rewrite conversations_step. by rewrite Hk. }
  unfold handler, generic_error. cbn [World.handler]. rewrite Hk.
  split; [reflexivity|]. split; [by destruct err as [msg [[|]|]]|].
  split; [reflexivity|]. split; [reflexivity|].
  split; [by destruct err as [msg [[|]|]]|].
  split; [unfold appended; by rewrite length_map|].
  intros i c. apply appended_lookup.
Qed.

Lemma failed_query_appends_one_error_message_witness :
  let w := World.step (World.Send (str "More?") (str "2024-05-01T10:02:00.000Z"))
             (default (World.first_visit 0)
                (World.mount returning_storage 9)) in
  text (errorMessage detailed_error (str "2024-05-01T10:02:03.000Z"))
  = str "No documents indexed for this chat"
  /\ length (conversations
               (World.app
                  (World.step
                     (World.QuerySettled 0 (inr detailed_error)
                        (str "2024-05-01T10:02:03.000Z")) w)))
     = 1%nat.
Proof.
  intros w.
  destruct (failed_query_appends_one_error_message w 0
              (id sample_conversation) detailed_error
              (str "2024-05-01T10:02:03.000Z"))
    as (_ & _ & _ & _ & Htext & Hlen & _).
  - reflexivity.
  - split; [exact Htext|exact Hlen].
Defined.

(** ** Recording an upload *)

Lemma marked_idempotent (chat : jsstring) (cs : list Conversation) :
  marked chat (marked chat cs) = marked chat cs.
Proof.
  unfold marked. rewrite map_map. apply map_ext. intros c.
  destruct (bool_decide_reflect (id c = chat)) as [Hc|Hc]; cbn.
  - by rewrite bool_decide_eq_true_2.
  - by rewrite bool_decide_eq_false_2.
Qed.

Lemma marked_fixed (chat : jsstring) (cs : list Conversation) :
  (forall c, In c cs -> id c = chat -> hasDocuments c = true) ->
  marked chat cs = cs.
Proof.
  intros Hcs. unfold marked. rewrite <- (map_id cs) at 2.
  apply map_ext_in. intros c Hc.
  destruct (bool_decide_reflect (id c = chat)) as [Hid|Hid]; [|done].
  pose proof (Hcs c Hc Hid) as Hdocs.
  destruct c as [i t n h ms]. cbn in Hdocs. by rewrite Hdocs.
Qed.

Lemma listed_map (chat : jsstring) (f : Conversation -> Conversation)
    (cs : list Conversation) :
  (forall c, id (f c) = id c) ->
  World.listed chat (List.map f cs) = World.listed chat cs.
Proof.
  intros Hf. unfold World.listed. induction cs as [|c cs IH]; [done|].
  cbn. by rewrite Hf, IH.
Qed.

Lemma listed_marked (chat chat' : jsstring) (cs : list Conversation) :
  World.listed chat' (marked chat cs) = World.listed chat' cs.
Proof. apply listed_map. intros c. by destruct (bool_decide _). Qed.


(** What a successful upload does: when its request settles, the collection
    becomes that of the render that sent the request with [hasDocuments] set
    on the conversation whose identifier the request carried, so that
    conversation has documents.  The function [marked] is idempotent and
    fixes a collection whose target has documents already, so if no state
    update came between the upload and its response, the state is the one
    before the response. *)
Theorem upload_success_marks_its_conversation `{Platform}
    (w : World.State) (k : nat) (chat : jsstring) (r : AppState)
    (data : FileUploader.UploadData) :
  World.reachable w ->
  World.pending w !! k = Some (World.PendingUpload chat r) ->
  let w' := World.step (World.UploadSettled k (inl data)) w in
  conversations (World.app w') = marked chat (conversations r)
  /\ (forall c, In c (conversations (World.app w')) -> id c = chat ->
                hasDocuments c = true)
  /\ World.listed chat (conversations (World.app w'))
     = World.listed chat (conversations r)
  /\ (forall cs, marked chat (marked chat cs) = marked chat cs)
  /\ (forall cs,
        (forall c, In c cs -> id c = chat -> hasDocuments c = true) ->
        marked chat cs = cs)
  /\ (r = World.app w ->
      (forall c, In c (conversations (World.app w)) -> id c = chat ->
                 hasDocuments c = true) ->
      World.app w' = World.app w).
Proof.
  intros Hreach Hk w'.
  destruct (reachable_consistent w Hreach) as (Hb & _ & _).
  assert (chat = activeConversationId r) as Hchat.
  { eapply Hb; [by eapply lookup_In|done]. }
  assert (conversations (World.app w') = marked chat (conversations r))
    as Hconvs.
  { unfold w'. rewrite conversations_step. by rewrite Hk, Hchat. }
  split; [done|]. split; [|split; [|split; [|split]]].
  - rewrite Hconvs. intros c (c0 & <- & Hc0)%in_map_iff.
    by destruct (bool_decide_reflect (id c0 = chat)).
  - rewrite Hconvs. apply listed_marked.
  - apply marked_idempotent.
  - apply marked_fixed.
  - intros -> Hdocs.
    pose proof (activeConversationId_step
                  (World.UploadSettled k (inl data)) w) as Hact.
    cbv beta iota zeta in Hact. fold w' in Hact.
    rewrite (marked_fixed _ _ Hdocs) in Hconvs.
    destruct (World.app w') as [cs' a'], (World.app w) as [cs a].
    cbn in *. congruence.
Qed.

Lemma upload_success_marks_its_conversation_witness :
  let w :=
    World.run [World.ClickNewChat (Some (str "Notes")) 2000 (str "k3j9x2m1q");
               World.SelectFile (Some (str "report.pdf"));
               World.ClickConversation (str "chat_1000")]
      (World.first_visit 1000) in
  let w' := World.step (World.UploadSettled 0 (inl sample_upload)) w in
  activeConversationId (World.app w') = str "chat_1000"
  /\ List.map (fun c => (id c, hasDocuments c)) (conversations (World.app w'))
     = [(str "chat_1000", false); (str "chat-2000-k3j9x2m1q", true)].
Proof.
  intros w w'. split; [reflexivity|].
  assert (World.reachable w) as Hw.
  { do 3 apply World.reachable_step. apply (World.reachable_mount ∅ 1000).
    apply mount_first_visit. }
  destruct (upload_success_marks_its_conversation w 0
              (str "chat-2000-k3j9x2m1q")
              (World.app
                 (World.step
                    (World.ClickNewChat (Some (str "Notes")) 2000
                       (str "k3j9x2m1q"))
                    (World.first_visit 1000)))
              sample_upload Hw)
    as (Hconvs & _).
  - reflexivity.
  - fold w' in Hconvs. rewrite Hconvs. reflexivity.
Defined.

(** C2 (the code at the failing input): the visitor's conversation has
    documents already.  A second file is chosen for it and, before the
    response, a question is asked in it; when the upload then succeeds,
    [handleUploadSuccess] sets the collection of the render that sent the
    upload: the conversation has documents as before, but the state is not
    the one before the response, the question is gone from the collection
    and from the persisted value. *)
Theorem repeated_upload_success_loses_the_question :
  let now := str "2024-05-01T10:05:00.000Z" in
  let asked :=
    App.with_messages
      (messages sample_conversation ++ [userMessage (str "hello") now])
      sample_conversation in
  let w1 :=
    World.run [World.SelectFile (Some (str "more.pdf"));
               World.Send (str "hello") now] returning_visit in
  let w2 := World.step (World.UploadSettled 0 (inl sample_upload)) w1 in
  World.pending w1 !! 0%nat
  = Some (World.PendingUpload (id sample_conversation)
            (World.app returning_visit))
  /\ conversations (World.app w1) = [asked]
  /\ hasDocuments asked = true
  /\ conversations (World.app w2) = [sample_conversation]
  /\ World.app w2 <> World.app w1
  /\ World.localStorage w1 !! "rag_conversations"
     = Some (JSON_stringify (Json.of_conversations [asked]))
  /\ World.localStorage w2 !! "rag_conversations"
     = Some (JSON_stringify (Json.of_conversations [sample_conversation])).
Proof.
  intros now asked w1 w2.
  assert (conversations (World.app w1) = [asked]) as H1 by by vm_compute.
  assert (conversations (World.app w2) = [sample_conversation]) as H2
    by by vm_compute.
  split; [by vm_compute|]. split; [done|]. split; [by vm_compute|].
  split; [done|]. split; [|split; by vm_compute].
  intros Heq. rewrite Heq, H1 in H2. by vm_compute in H2.
Qed.

(** ** Resetting a conversation *)



(** ** Updates of one conversation and the other conversations *)

(** Each of the three updates leaves, in the collection it is computed
    from, every conversation with another identifier as it is. *)
Lemma updates_keep_the_others (chat : jsstring) (m : Message)
    (cs : list Conversation) (i : nat) (c : Conversation) :
  nth_error cs i = Some c -> id c <> chat ->
  nth_error (appended chat m cs) i = Some c
  /\ nth_error (marked chat cs) i = Some c
  /\ nth_error (cleared chat cs) i = Some c.
Proof.
  intros Hc Hid. unfold appended, marked, cleared.
  rewrite !nth_error_map, Hc. cbn. by rewrite bool_decide_eq_false_2.
Qed.

(** [addMessageToConversation] is computed from the collection of the state:
    whenever a message is appended, the other conversations of the state
    are kept. *)
Lemma append_keeps_the_others `{Platform} (w : World.State) (k : nat)
    (chat : jsstring) (settled : ChatWindow.QueryData + JSError)
    (now : jsstring) (i : nat) (c : Conversation) :
  World.pending w !! k = Some (World.PendingQuery chat) ->
  nth_error (conversations (World.app w)) i = Some c -> id c <> chat ->
  nth_error
    (conversations
       (World.app (World.step (World.QuerySettled k settled now) w))) i
  = Some c.
Proof.
  intros Hk Hc Hid. rewrite conversations_step. rewrite Hk.
  by apply updates_keep_the_others.
Qed.

(** C9 (the code at the failing input): two conversations, both with
    documents.  An upload is sent for the first one; the user switches to the
    second one and sends a question, which appends the user message to the
    second conversation; then the upload succeeds.  [handleUploadSuccess]
    sets the collection of the render that sent the upload, so the second
    conversation, which is not the one the upload was for, loses its
    message.  The same happens with a reset in place of the upload. *)
Theorem stale_update_reverts_other_conversation :
  let now := str "2024-05-01T10:05:00.000Z" in
  let asked :=
    App.with_messages [userMessage (str "hello") now] other_conversation in
  id other_conversation <> id sample_conversation
  /\ (let w1 :=
        World.run [World.SelectFile (Some (str "more.pdf"));
                   World.ClickConversation (id other_conversation);
                   World.Send (str "hello") now] two_chats_visit in
      let w2 := World.step (World.UploadSettled 0 (inl sample_upload)) w1 in
      World.pending w1 !! 0%nat
      = Some (World.PendingUpload (id sample_conversation)
                (World.app two_chats_visit))
      /\ conversations (World.app w1) = [sample_conversation; asked]
      /\ conversations (World.app w2) = [sample_conversation; other_conversation]
      /\ World.localStorage w2 !! "rag_conversations"
         = Some (JSON_stringify
                   (Json.of_conversations
                      [sample_conversation; other_conversation])))
  /\ (let w1 :=
        World.run [World.ClickReset true;
                   World.ClickConversation (id other_conversation);
                   World.Send (str "hello") now] two_chats_visit in
      let w2 := World.step (World.ResetSettled 0 (inl tt)) w1 in
      World.pending w1 !! 0%nat
      = Some (World.PendingReset (id sample_conversation)
                (World.app two_chats_visit))
      /\ conversations (World.app w1) = [sample_conversation; asked]
      /\ conversations (World.app w2)
         = [App.with_messages [] (App.with_hasDocuments false sample_conversation);
            other_conversation]).
Proof.
  intros now asked. split; [discriminate|].
  split; repeat split; by vm_compute.
Qed.

(** The same defect drops a conversation that was created while the upload
    was in flight: the active identifier is then that of no conversation,
    and this is the state that is persisted and loaded on the next visit. *)
Lemma stale_upload_drops_created_conversation :
  let w1 :=
    World.run [World.SelectFile (Some (str "report.pdf"));
               World.ClickNewChat (Some (str "Notes")) 2000 (str "k3j9x2m1q")]
      (World.first_visit 1000) in
  let w2 := World.step (World.UploadSettled 0 (inl sample_upload)) w1 in
  List.map id (conversations (World.app w1))
  = [str "chat_1000"; str "chat-2000-k3j9x2m1q"]
  /\ List.map id (conversations (World.app w2)) = [str "chat_1000"]
  /\ activeConversationId (World.app w2) = str "chat-2000-k3j9x2m1q"
  /\ (World.app <$> World.mount (World.localStorage w2) 3000)
     = Some (World.app w2).
Proof. repeat split; by vm_compute. Qed.

(** * Further properties of the components *)

(** ** Deleting a conversation *)

Lemma remaining_In (id' : jsstring) (cs : list Conversation)
    (c : Conversation) :
  In c (remaining id' cs) <-> In c cs /\ id c <> id'.
Proof.
  unfold remaining. rewrite filter_In, negb_true_iff, bool_decide_eq_false.
  done.
Qed.

Lemma remaining_nil (id' : jsstring) (cs : list Conversation) :
  remaining id' cs = [] <-> forall c, In c cs -> id c = id'.
Proof.
  split.
  - intros Hnil c Hc. destruct (decide (id c = id')) as [|Hne]; [done|].
    assert (In c (remaining id' cs)) as Hin by by apply remaining_In.
    by rewrite Hnil in Hin.
  - intros Hall. destruct (remaining id' cs) as [|c l] eqn:Hr; [done|].
    assert (In c (remaining id' cs)) as [Hc Hne]%remaining_In.
    { rewrite Hr. by left. }
    by specialize (Hall c Hc).
Qed.

Lemma remaining_length (id' : jsstring) (cs : list Conversation) :
  List.NoDup (List.map id cs) -> World.listed id' cs = true ->
  S (length (remaining id' cs)) = length cs.
Proof.
  induction cs as [|c cs IH]; [done|]. cbn.
  intros [Hc Hnd]%List.NoDup_cons_iff.
  destruct (bool_decide_reflect (id c = id')) as [Heq|Hne]; cbn.
  - intros _. f_equal. unfold remaining in *.
    rewrite List.forallb_filter_id; [done|].
    apply forallb_forall. intros c' Hc'.
    apply negb_true_iff, bool_decide_eq_false. intros Heq'.
    apply Hc, in_map_iff. exists c'. split; [congruence|done].
  - intros Hl. f_equal. by apply IH.
Qed.

(** X1: with a single conversation in the collection, [deleteConversation]
    only shows its notice, whatever identifier it is called with: no state
    is set, nothing is sent, nothing is persisted. *)
Theorem last_conversation_is_kept `{Platform} (w : World.State)
    (id' : jsstring) :
  length (conversations (World.app w)) = 1%nat ->
  let handler :=
    App.deleteConversation (conversations (World.app w))
      (activeConversationId (World.app w)) id' in
  calls handler = [Alert (str "Cannot delete the last conversation")]
  /\ returns handler = true
  /\ World.commit (calls handler) w = w
  /\ World.step (World.ClickDelete id') w = w.
Proof.
  intros Hlen handler.
  assert (calls handler = [Alert (str "Cannot delete the last conversation")])
    as Hcalls.
  { unfold handler, App.deleteConversation. by rewrite Hlen. }
  split; [done|]. split; [|split].
  - unfold handler, App.deleteConversation. by rewrite Hlen.
  - apply commit_inert. by rewrite Hcalls.
  - unfold World.step. cbn [World.handler World.settle]. rewrite Hlen.
    by apply commit_inert.
Qed.

Lemma last_conversation_is_kept_witness :
  World.step (World.ClickDelete (str "chat_1000")) (World.first_visit 1000)
  = World.first_visit 1000.
Proof.
  apply (last_conversation_is_kept (H:=browser) (World.first_visit 1000)
           (str "chat_1000")).
  reflexivity.
Defined.

(** X2: in a collection of at least two conversations with pairwise
    distinct identifiers, deleting a listed conversation returns without
    throwing and removes that conversation and no other, keeping the order
    of the rest; the active identifier stays when another conversation was
    deleted, and becomes that of the first remaining conversation when the
    active one was. *)
Theorem delete_removes_exactly_that_conversation `{Platform}
    (w : World.State) (id' : jsstring) :
  let cs := conversations (World.app w) in
  let a := activeConversationId (World.app w) in
  let w' := World.step (World.ClickDelete id') w in
  List.NoDup (List.map id cs) -> World.listed id' cs = true ->
  (1 < length cs)%nat ->
  returns (App.deleteConversation cs a id') = true
  /\ conversations (World.app w') = remaining id' cs
  /\ S (length (conversations (World.app w'))) = length cs
  /\ (forall c, In c (conversations (World.app w')) <-> In c cs /\ id c <> id')
  /\ (a <> id' -> activeConversationId (World.app w') = a)
  /\ (a = id' ->
      exists c rest,
        conversations (World.app w') = c :: rest
        /\ activeConversationId (World.app w') = id c).
Proof.
  intros cs a w' Hnd Hlisted Hlen.
  pose proof (filtered_nonempty cs id' Hnd Hlen) as Hne. fold (remaining id' cs) in Hne.
  assert (World.app w'
          = {| conversations := remaining id' cs;
               activeConversationId :=
                 if bool_decide (a = id') then
                   match remaining id' cs with c :: _ => id c | [] => a end
                 else a |}) as Happ.
  { unfold w'. rewrite app_step_delete. fold cs a.
    apply Nat.ltb_lt in Hlen. by rewrite Hlen, Hlisted. }
  rewrite Happ. cbn [conversations activeConversationId].
  split; [|split; [done|split; [by apply remaining_length|split; [|split]]]].
  - unfold App.deleteConversation. fold (remaining id' cs).
    assert ((length cs =? 1)%nat = false) as -> by (apply Nat.eqb_neq; lia).
    destruct (bool_decide (a = id')); [|done].
    by destruct (remaining id' cs).
  - intros c. apply remaining_In.
  - intros Ha. by rewrite bool_decide_eq_false_2.
  - intros Ha. rewrite bool_decide_eq_true_2 by done.
    destruct (remaining id' cs) as [|c rest]; [done|]. by exists c, rest.
Qed.

Lemma delete_removes_exactly_that_conversation_witness :
  List.map id
    (conversations
       (World.app
          (World.step (World.ClickDelete (id sample_conversation))
             two_chats_visit)))
  = [id other_conversation]
  /\ activeConversationId
       (World.app
          (World.step (World.ClickDelete (id sample_conversation))
             two_chats_visit))
     = id other_conversation.
Proof.
  assert (conversations (World.app two_chats_visit)
          = [sample_conversation; other_conversation]) as Htwo by reflexivity.
  destruct (delete_removes_exactly_that_conversation (H:=browser)
              two_chats_visit (id sample_conversation))
    as (_ & Hconvs & _ & _ & _ & Hactive).
  - rewrite Htwo.
    apply List.NoDup_cons;
      [|apply List.NoDup_cons; [by intros []|apply List.NoDup_nil]].
    intros [Heq|[]]. discriminate Heq.
  - reflexivity.
  - rewrite Htwo. cbn. lia.
  - split; [by rewrite Hconvs|].
    destruct Hactive as (c & rest & Hcs & ->); [reflexivity|].
    rewrite Hconvs in Hcs. by injection Hcs as <- _.
Defined.

(** X3: [deleteConversation] throws (reading [filtered[0].id]) exactly when
    the collection does not have one conversation, the deleted identifier is
    the active one, and every conversation has that identifier; the empty
    collection has then already been set. *)
Theorem deleteConversation_throws_iff (cs : list Conversation)
    (a id' : jsstring) :
  (returns (App.deleteConversation cs a id') = false
   <-> length cs <> 1%nat /\ a = id' /\ forall c, In c cs -> id c = id')
  /\ (returns (App.deleteConversation cs a id') = false ->
      updated (calls (App.deleteConversation cs a id')) cs = []).
Proof.
  unfold App.deleteConversation. fold (remaining id' cs).
  destruct (Nat.eqb_spec (length cs) 1) as [Hlen|Hlen].
  { split; [|done]. split; [done|]. by intros [? _]. }
  destruct (bool_decide_reflect (a = id')) as [Ha|Ha].
  - destruct (remaining id' cs) as [|c rest] eqn:Hr.
    + split; [|done]. split; [|done]. intros _.
      split; [done|]. split; [done|]. by apply remaining_nil.
    + split; [|done]. split; [done|]. intros (_ & _ & Hall).
      apply remaining_nil in Hall. congruence.
  - split; [|done]. split; [done|]. by intros (_ & ? & _).
Qed.

Lemma deleteConversation_throws_iff_witness :
  returns (App.deleteConversation [sample_conversation; sample_conversation]
             (id sample_conversation) (id sample_conversation)) = false
  /\ updated
       (calls (App.deleteConversation [sample_conversation; sample_conversation]
                 (id sample_conversation) (id sample_conversation)))
       [sample_conversation; sample_conversation] = [].
Proof.
  destruct (deleteConversation_throws_iff
              [sample_conversation; sample_conversation]
              (id sample_conversation) (id sample_conversation))
    as [Hiff Hset].
  assert (returns (App.deleteConversation
                     [sample_conversation; sample_conversation]
                     (id sample_conversation) (id sample_conversation))
          = false) as Hthrows.
  { apply Hiff. split; [discriminate|]. split; [reflexivity|].
    by intros c [<-|[<-|[]]]. }
  split; [exact Hthrows|exact (Hset Hthrows)].
Defined.

(** ** Selecting a conversation *)

(** X4: clicking a listed conversation makes it the active one and changes
    nothing else of the state: the collection (so every message history),
    the requests in flight and the loading flag stay, and of the persisted
    values only the active identifier is written.  Clicking it again changes
    nothing at all. *)
Theorem selecting_a_conversation `{Platform} (w : World.State)
    (id' : jsstring) :
  World.listed id' (conversations (World.app w)) = true ->
  let w' := World.step (World.ClickConversation id') w in
  World.app w'
  = {| conversations := conversations (World.app w);
       activeConversationId := id' |}
  /\ World.pending w' = World.pending w
  /\ World.isLoading w' = World.isLoading w
  /\ World.localStorage w' !! "rag_conversations"
     = World.localStorage w !! "rag_conversations"
  /\ (id' <> activeConversationId (World.app w) ->
      World.localStorage w' !! "rag_active_chat" = Some id')
  /\ World.step (World.ClickConversation id') w' = w'.
Proof.
  intros Hlisted w'.
  assert (forall v, World.listed id' (conversations (World.app v)) = true ->
            World.step (World.ClickConversation id') v
            = World.with_localStorage
                (if bool_decide (id' = activeConversationId (World.app v))
                 then World.localStorage v
                 else <["rag_active_chat" := id']> (World.localStorage v))
                (World.with_app
                   {| conversations := conversations (World.app v);
                      activeConversationId := id' |} v)) as Hstep.
  { intros v Hv. unfold World.step, World.commit, World.effects.
    cbn [World.handler World.settle]. rewrite Hv. cbn.
    rewrite app_nil_r. by destruct v. }
  unfold w'. rewrite (Hstep w Hlisted). cbn.
  split; [done|]. split; [done|]. split; [done|]. split; [|split].
  - destruct (bool_decide _); [done|]. by rewrite lookup_insert_ne.
  - intros Hne. rewrite bool_decide_eq_false_2 by done.
    by rewrite lookup_insert_eq.
  - rewrite Hstep by done. cbn. rewrite bool_decide_eq_true_2 by done.
    done.
Qed.

Lemma selecting_a_conversation_witness :
  World.app (World.step (World.ClickConversation (id other_conversation))
               two_chats_visit)
  = {| conversations := [sample_conversation; other_conversation];
       activeConversationId := id other_conversation |}.
Proof.
  apply (selecting_a_conversation (H:=browser) two_chats_visit
           (id other_conversation)).
  reflexivity.
Defined.

(** ** Persisting and loading *)

(** X5: after the first render and after every event, whatever the stored
    values were before the visit, [localStorage] holds the serialized
    collection of the state under "rag_conversations" and the active
    identifier under "rag_active_chat". *)
Theorem storage_mirrors_state `{Platform} (w : World.State) :
  World.reachable w ->
  World.localStorage w !! "rag_conversations"
  = Some (JSON_stringify
            (Json.of_conversations (conversations (World.app w))))
  /\ World.localStorage w !! "rag_active_chat"
     = Some (activeConversationId (World.app w)).
Proof.
  induction 1 as [ls now w Hm|e w _ IH].
  - by apply (mount_in_sync ls now).
  - by apply commit_in_sync, settle_in_sync.
Qed.

Lemma storage_mirrors_state_witness :
  World.localStorage
    (World.step (World.ClickNewChat (Some (str "Notes")) 2000 (str "k3j9x2m1q"))
       (World.first_visit 1000))
  !! "rag_active_chat"
  = Some (str "chat-2000-k3j9x2m1q").
Proof.
  apply (storage_mirrors_state (H:=browser)).
  apply World.reachable_step, (World.reachable_mount ∅ 1000).
  apply mount_first_visit.
Defined.

(** X6: a visit can be resumed: if the platform parses what it serialized
    for the collection of a reachable state, and the active identifier is
    not the empty string, then loading the stored values gives the
    collection and the active identifier of that state. *)
Theorem reload_restores_state `{Platform} (w : World.State) (now : N) :
  World.reachable w ->
  let v := Json.of_conversations (conversations (World.app w)) in
  JSON_stringify v <> [] ->
  JSON_parse (JSON_stringify v) = Some v ->
  activeConversationId (World.app w) <> [] ->
  World.app <$> World.mount (World.localStorage w) now = Some (World.app w).
Proof.
  intros Hreach v Hne Hparse Hactive.
  destruct (persistence_is_write_through w Hreach) as [Hconvs Hact].
  unfold World.mount. rewrite Hconvs, Hact.
  unfold App.conversations_initializer. fold v.
  destruct (JSON_stringify v) as [|c s] eqn:Hs; [done|]. cbn [truthy].
  rewrite Hparse. unfold v. rewrite to_conversations_of_conversations. cbn.
  destruct (activeConversationId (World.app w)) as [|c' a'] eqn:Ha; [done|].
  cbn. destruct (World.app w). cbn in *. by subst.
Qed.

Lemma reload_restores_state_witness :
  let w :=
    World.step (World.ClickNewChat (Some (str "Notes")) 2000 (str "k3j9x2m1q"))
      (World.first_visit 1000) in
  World.app <$> World.mount (World.localStorage w) 3000 = Some (World.app w).
Proof.
  intros w. apply (reload_restores_state (H:=browser)).
  - apply World.reachable_step, (World.reachable_mount ∅ 1000).
    apply mount_first_visit.
  - discriminate.
  - reflexivity.
  - discriminate.
Defined.

(** X7: stored conversations that are absent, empty or unparseable never
    prevent the start: the application mounts with the single default
    conversation, without documents or messages, and the active identifier
    is the stored one when there is a non-empty one and that of the default
    conversation otherwise. *)
Theorem unreadable_collection_still_mounts `{Platform}
    (ls : gmap string jsstring) (now : N) :
  ls !! "rag_conversations" = None \/ ls !! "rag_conversations" = Some []
  \/ (exists s, ls !! "rag_conversations" = Some s /\ JSON_parse s = None) ->
  exists w,
    World.mount ls now = Some w
    /\ conversations (World.app w) = [App.default_conversation now]
    /\ activeConversationId (World.app w)
       = or_else (ls !! "rag_active_chat") (id (App.default_conversation now))
    /\ World.hasDocuments_prop (World.app w) = false
    /\ World.pending w = [] /\ World.isLoading w = false.
Proof.
  intros Hsaved.
  assert (App.conversations_initializer (ls !! "rag_conversations") now
          = Json.of_conversations [App.default_conversation now]) as Hinit.
  { unfold App.conversations_initializer.
    destruct Hsaved as [-> |[-> |(s & -> & ->)]]; try done.
    by destruct (truthy s). }
  unfold World.mount. rewrite Hinit, to_conversations_of_conversations. cbn.
  assert (App.activeConversationId_initializer (ls !! "rag_active_chat")
            [App.default_conversation now]
          = inl (or_else (ls !! "rag_active_chat")
                   (id (App.default_conversation now)))) as ->.
  { unfold App.activeConversationId_initializer, or_else.
    destruct (ls !! "rag_active_chat") as [a|]; [|done].
    by destruct (truthy a). }
  eexists. split; [done|]. cbn. repeat split.
  unfold World.hasDocuments_prop, App.activeConversation. cbn.
  by destruct (bool_decide _).
Qed.

Lemma unreadable_collection_still_mounts_witness :
  exists w,
    World.mount {[ "rag_conversations" := str "{oops" ]} 1000 = Some w
    /\ conversations (World.app w) = [App.default_conversation 1000].
Proof.
  destruct (unreadable_collection_still_mounts (H:=browser)
              {[ "rag_conversations" := str "{oops" ]} 1000)
    as (w & Hw & Hcs & _).
  - right. right. exists (str "{oops"). split; reflexivity.
  - exists w. by split.
Defined.

(** ** A question and its reply *)









(** X9: when the request of a query settles, with an answer or with a
    failure, the handler returns without throwing, the loading flag is down
    and no query is in flight any more. *)
Theorem settled_query_releases_the_chat `{Platform} (w : World.State)
    (k : nat) (chat : jsstring) (settled : ChatWindow.QueryData + JSError)
    (now : jsstring) :
  World.reachable w ->
  World.pending w !! k = Some (World.PendingQuery chat) ->
  let w' := World.step (World.QuerySettled k settled now) w in
  returns (World.handler (World.QuerySettled k settled now) w) = true
  /\ World.isLoading w' = false
  /\ (forall chat', ~ In (World.PendingQuery chat') (World.pending w'))
  /\ World.uploading w' = World.uploading w.
Proof.
  intros Hreach Hk w'.
  assert (World.isLoading w' = false) as Hload.
  { unfold w'. rewrite isLoading_step. by rewrite Hk. }
  split; [|split; [done|split]].
  - cbn [World.handler]. rewrite Hk. by destruct settled.
  - intros chat' Hin.
    assert (World.reachable w') as Hreach' by by apply World.reachable_step.
    destruct (reachable_consistent w' Hreach') as (_ & Hq & _).
    by rewrite (query_pending_loading w' chat' Hq Hin) in Hload.
  - unfold w', World.step. cbn [World.handler World.settle]. rewrite Hk.
    by destruct settled.
Qed.

Lemma settled_query_releases_the_chat_witness :
  let w := World.step (World.Send (str " More? ") (str "t1")) returning_visit in
  World.isLoading w = true
  /\ World.isLoading
       (World.step (World.QuerySettled 0 (inr detailed_error) (str "t2")) w)
     = false.
Proof.
  intros w. split; [reflexivity|].
  apply (settled_query_releases_the_chat (H:=browser) w 0
           (id sample_conversation)).
  - apply World.reachable_step, (World.reachable_mount returning_storage 9).
    reflexivity.
  - reflexivity.
Defined.

(** ** Uploading *)

Lemma uploading_step `{Platform} (e : World.Event) (w : World.State) :
  World.uploading (World.step e w)
  = match e with
    | World.SelectFile (Some _) => true
    | World.UploadSettled k _ =>
        match World.pending w !! k with
        | Some (World.PendingUpload _ _) => false
        | _ => World.uploading w
        end
    | _ => World.uploading w
    end.
Proof.
  destruct e as [chatName now rnd|id'|id'|input now|confirmed
                |file|confirmed|k settled now|k settled|k settled];
    unfold World.step, World.commit, World.effects;
    cbn [World.handler World.settle World.uploading World.with_localStorage
         World.with_pending].
  - destruct chatName as [raw|]; [|done]. unfold App.createConversation.
    destruct (truthy raw); [|by cbn]. destruct (truthy (trim raw)); [|by cbn].
    by destruct (truthy (App.sanitize raw)); cbn.
  - destruct ((1 <? _)%nat && _); [|by cbn]. unfold App.deleteConversation.
    destruct (length _ =? 1)%nat; [by cbn|].
    destruct (bool_decide _); [|by cbn]. by destruct (List.filter _ _); cbn.
  - by destruct (World.listed _ _).
  - unfold ChatWindow.handleSend.
    destruct (truthy (trim input)); [|by cbn].
    destruct (World.hasDocuments_prop _); [|by cbn].
    by destruct (World.isLoading w); cbn.
  - by destruct confirmed.
  - destruct (World.uploading w) eqn:Hu; [by destruct file; cbn|].
    destruct file; cbn; by rewrite ?Hu.
  - by destruct confirmed.
  - destruct (World.pending w !! k) as [[chat| |]|]; try done.
    by destruct settled.
  - by destruct (World.pending w !! k) as [[|chat r|]|]; destruct settled.
  - by destruct (World.pending w !! k) as [[| |chat r]|]; destruct settled.
Qed.

Lemma one_upload_at_a_time_step `{Platform} (e : World.Event)
    (w : World.State) :
  one_upload_at_a_time w -> one_upload_at_a_time (World.step e w).
Proof.
  unfold one_upload_at_a_time. intros Hw.
  rewrite pending_step, uploading_step.
  destruct e as [| | |input now| |[f|]|[|]|k ? ?|k ?|k ?]; try done.
  - destruct (sendable input w); [|done].
    by rewrite List.filter_app, List.length_app, Hw, Nat.add_0_r.
  - destruct (World.uploading w); [done|].
    by rewrite List.filter_app, List.length_app, Hw.
  - by rewrite List.filter_app, List.length_app, Hw, Nat.add_0_r.
  - destruct (World.pending w !! k) as [[]|] eqn:Hk; try done.
    by rewrite (filter_delete_other is_upload k _ _ Hk eq_refl).
  - destruct (World.pending w !! k) as [[chat|chat r|]|] eqn:Hk; try done.
    pose proof (filter_delete_one is_upload k _ _ Hk eq_refl) as Hlen.
    rewrite Hw in Hlen. destruct (World.uploading w); [lia|done].
  - destruct (World.pending w !! k) as [[]|] eqn:Hk; try done.
    by rewrite (filter_delete_other is_upload k _ _ Hk eq_refl).
Qed.

Lemma reachable_one_upload `{Platform} (w : World.State) :
  World.reachable w -> one_upload_at_a_time w.
Proof.
  induction 1 as [ls now w Hm|e w _ IH].
  - unfold World.mount in Hm.
    destruct (Json.to_conversations _) as [cs|]; [|done]. cbn in Hm.
    destruct (App.activeConversationId_initializer _ cs) as [a|]; [|done].
    by injection Hm as <-.
  - by apply one_upload_at_a_time_step.
Qed.

(** X10: an upload starts only from a chosen file while no upload is in
    flight.  Without a file, or while one is uploading, choosing a file
    sends nothing and leaves the state as it is; otherwise exactly one
    request is sent, for the active conversation, with its index name when
    that is not empty, the uploading flag goes up and the collection is not
    touched.  [uploadFile] without a file only shows its notice. *)
Theorem upload_starts_from_a_file `{Platform} (w : World.State) :
  let a := activeConversationId (World.app w) in
  (forall chatId chatName,
      calls (FileUploader.uploadFile chatId chatName None)
      = [SetError (str "Please select a file first")])
  /\ World.step (World.SelectFile None) w = w
  /\ (forall file, World.uploading w = true ->
                   World.step (World.SelectFile file) w = w)
  /\ (forall f,
        World.uploading w = false ->
        let w' := World.step (World.SelectFile (Some f)) w in
        World.requests (World.SelectFile (Some f)) w
        = [UploadRequest f a (form_chat_name (World.chatName (World.app w)))]
        /\ World.pending w'
           = World.pending w ++ [World.PendingUpload a (World.app w)]
        /\ World.uploading w' = true
        /\ World.app w' = World.app w).
Proof.
  intros a. split; [done|]. split; [|split].
  - unfold World.step. apply commit_inert. cbn [World.handler].
    by destruct (World.uploading w).
  - intros file Hu. unfold World.step. apply commit_inert.
    cbn [World.handler]. by rewrite Hu.
  - intros f Hu w'. split; [|split; [|split]].
    + rewrite requests_step. by rewrite Hu.
    + unfold w'. rewrite pending_step. by rewrite Hu.
    + unfold w'. by rewrite uploading_step.
    + unfold w', World.step. rewrite app_commit.
      cbn [World.handler World.settle]. rewrite Hu. by destruct w as [[]].
Qed.

Lemma upload_starts_from_a_file_witness :
  let w := World.step (World.SelectFile (Some (str "report.pdf")))
             (World.first_visit 1000) in
  World.uploading w = true
  /\ World.step (World.SelectFile (Some (str "more.pdf"))) w = w.
Proof.
  intros w.
  destruct (upload_starts_from_a_file (H:=browser) (World.first_visit 1000))
    as (_ & _ & _ & Hstart).
  destruct (upload_starts_from_a_file (H:=browser) w) as (_ & _ & Hbusy & _).
  split.
  - apply (Hstart (str "report.pdf")). reflexivity.
  - apply Hbusy. reflexivity.
Defined.

(** X11: when the request of an upload settles with a failure, the handler
    returns without throwing and the success callback is not called: the
    collection, the active identifier, both persisted values and the record
    of successful uploads are those before, the notice is the [detail] of
    the response when it is present and not empty and the generic text
    otherwise, and the uploading flag is down. *)
Theorem failed_upload_changes_nothing `{Platform} (w : World.State)
    (k : nat) (chat : jsstring) (r : AppState) (err : JSError) :
  World.pending w !! k = Some (World.PendingUpload chat r) ->
  let handler := World.handler (World.UploadSettled k (inr err)) w in
  let w' := World.step (World.UploadSettled k (inr err)) w in
  returns handler = true
  /\ calls handler
     = [SetError (match detail err with
                  | Some (c :: d) => c :: d
                  | _ => upload_error
                  end);
        SetTimeout (SetError []) 5000;
        SetUploading false]
  /\ World.app w' = World.app w
  /\ World.localStorage w' = World.localStorage w
  /\ World.uploaded w' = World.uploaded w
  /\ World.isLoading w' = World.isLoading w
  /\ World.uploading w' = false.
Proof.
  intros Hk handler w'.
  unfold handler, w', World.step, World.commit, World.effects.
  cbn [World.handler World.settle]. rewrite Hk.
  split; [done|]. split; [by destruct err as [msg [[|]|]]|].
  cbn. rewrite bool_decide_eq_true_2 by done. by destruct w as [[]].
Qed.

Lemma failed_upload_changes_nothing_witness :
  let w := World.step (World.SelectFile (Some (str "report.pdf")))
             (World.first_visit 1000) in
  World.app (World.step (World.UploadSettled 0 (inr detailed_error)) w)
  = World.app (World.first_visit 1000).
Proof.
  intros w.
  destruct (failed_upload_changes_nothing (H:=browser) w 0 (str "chat_1000")
              (World.app (World.first_visit 1000)) detailed_error)
    as (_ & _ & Happ & _).
  - reflexivity.
  - exact Happ.
Defined.

(** X12: in every reachable state the uploading flag is up exactly while an
    upload is in flight, and at most one upload is in flight; while it is,
    choosing another file sends nothing. *)
Theorem one_upload_in_flight `{Platform} (w : World.State) :
  World.reachable w ->
  length (List.filter is_upload (World.pending w))
  = (if World.uploading w then 1%nat else 0%nat)
  /\ (forall chat r file,
        In (World.PendingUpload chat r) (World.pending w) ->
        World.uploading w = true
        /\ World.requests (World.SelectFile file) w = []).
Proof.
  intros Hreach. pose proof (reachable_one_upload w Hreach) as Hw.
  split; [done|]. intros chat r file Hin.
  assert (World.uploading w = true) as Hu.
  { unfold one_upload_at_a_time in Hw.
    destruct (World.uploading w); [done|].
    assert (In (World.PendingUpload chat r)
               (List.filter is_upload (World.pending w))) as Hf
      by by apply filter_In.
    by destruct (List.filter is_upload (World.pending w)). }
  split; [done|]. rewrite requests_step. rewrite Hu. by destruct file.
Qed.

Lemma one_upload_in_flight_witness :
  let w := World.step (World.SelectFile (Some (str "report.pdf")))
             (World.first_visit 1000) in
  length (List.filter is_upload (World.pending w)) = 1%nat.
Proof.
  intros w.
  destruct (one_upload_in_flight (H:=browser) w) as [Hlen _].
  - apply World.reachable_step, (World.reachable_mount ∅ 1000).
    apply mount_first_visit.
  - exact Hlen.
Defined.

(** ** Identifiers *)

Lemma digits_all_digits (d : Decimal.uint) :
  forallb is_digit (digits d) = true.
Proof. induction d; cbn; by rewrite ?IHd. Qed.

Lemma digits_inj (d d' : Decimal.uint) : digits d = digits d' -> d = d'.
Proof.
  revert d'. induction d; intros d'; destruct d'; cbn; try done;
    intros [= Heq]; f_equal; by apply IHd.
Qed.

Lemma decimal_inj (n n' : N) : decimal n = decimal n' -> n = n'.
Proof. intros Heq%digits_inj. by apply DecimalN.Unsigned.to_uint_inj. Qed.

(** Two strings that start with digits followed by a hyphen are equal only
    if the digits and what follows the hyphen are. *)
Lemma split_at_hyphen (d1 d2 x y : jsstring) :
  forallb is_digit d1 = true -> forallb is_digit d2 = true ->
  d1 ++ 45%N :: x = d2 ++ 45%N :: y -> d1 = d2 /\ x = y.
Proof.
  revert d2. induction d1 as [|c d1 IH]; intros [|c' d2]; cbn.
  - by intros _ _ [= ->].
  - intros _ [Hc _]%andb_prop [= <- _]. done.
  - intros [Hc _]%andb_prop _ [= -> _]. done.
  - intros [_ H1]%andb_prop [_ H2]%andb_prop [= -> Heq].
    destruct (IH d2 H1 H2 Heq) as [-> ->]. done.
Qed.

(** X13: the identifier that [createConversation] builds determines the
    clock value and the random suffix it was built from, so two creations
    give the same identifier only with the same clock value and the same
    suffix; the identifier of the default conversation determines its clock
    value; and no created identifier is that of a default conversation. *)
Theorem identifiers_are_determined (now now' : N)
    (rnd rnd' title title' : jsstring) :
  (id (created title now rnd) = id (created title' now' rnd') ->
   now = now' /\ rnd = rnd')
  /\ (id (App.default_conversation now) = id (App.default_conversation now') ->
      now = now')
  /\ id (created title now rnd) <> id (App.default_conversation now').
Proof.
  split; [|split].
  - cbn [id created]. intros Heq%app_inv_head.
    apply split_at_hyphen in Heq as [Hn Hr];
      try apply digits_all_digits.
    split; [by apply decimal_inj|done].
  - cbn [id App.default_conversation]. intros Heq%app_inv_head.
    by apply decimal_inj.
  - cbn [id created App.default_conversation]. intros Heq.
    vm_compute (str "chat-") in Heq. vm_compute (str "chat_") in Heq.
    cbn in Heq. discriminate Heq.
Qed.

Lemma identifiers_are_determined_witness :
  (1000 = 1000)%N /\ str "k3j9x2m1q" = str "k3j9x2m1q".
Proof.
  apply (identifiers_are_determined 1000 1000 (str "k3j9x2m1q")
           (str "k3j9x2m1q") (str "Notes") (str "Report 1")).
  reflexivity.
Defined.

(** ** Histories *)

Lemma extends_refl (c : Conversation) : extends c c.
Proof. repeat split. exists []. by rewrite app_nil_r. Qed.

Lemma In_appended_extends (chat : jsstring) (m : Message)
    (cs : list Conversation) (c' : Conversation) :
  In c' (appended chat m cs) -> exists c, In c cs /\ extends c c'.
Proof.
  intros (c & <- & Hc)%in_map_iff. exists c. split; [done|].
  destruct (bool_decide _); [|apply extends_refl].
  repeat split. by exists [m].
Qed.

Lemma appended_In_extends (chat : jsstring) (m : Message)
    (cs : list Conversation) (c : Conversation) :
  In c cs -> exists c', In c' (appended chat m cs) /\ extends c c'.
Proof.
  intros Hc. eexists. split; [by apply in_map|].
  destruct (bool_decide _); [|apply extends_refl].
  repeat split. by exists [m].
Qed.

(** X14: apart from the two continuations that set the collection of an
    earlier render (a successful upload and a successful reset), no event
    edits or removes a message or changes the identifier, title, index name
    or document flag of a conversation: every conversation of the new
    collection is one of the old collection with, possibly, messages added
    at the end, or the conversation just created; and every conversation of
    the old collection is still there, unless it is the one just deleted. *)
Theorem histories_only_grow `{Platform} (e : World.Event) (w : World.State) :
  restores e = false ->
  let cs := conversations (World.app w) in
  let cs' := conversations (World.app (World.step e w)) in
  (forall c',
      In c' cs' ->
      (exists c, In c cs /\ extends c c')
      \/ (exists raw now rnd,
            e = World.ClickNewChat (Some raw) now rnd
            /\ c' = created (App.sanitize raw) now rnd))
  /\ (forall c,
        In c cs ->
        (exists c', In c' cs' /\ extends c c')
        \/ (exists id', e = World.ClickDelete id' /\ id c = id')).
Proof.
  intros He cs cs'. unfold cs'. rewrite conversations_step. fold cs.
  assert ((forall c', In c' cs -> 
             (exists c, In c cs /\ extends c c')
             \/ (exists raw now rnd,
                   e = World.ClickNewChat (Some raw) now rnd
                   /\ c' = created (App.sanitize raw) now rnd))
          /\ (forall c, In c cs ->
                (exists c', In c' cs /\ extends c c')
                \/ (exists id', e = World.ClickDelete id' /\ id c = id')))
    as Hsame.
  { split; intros c Hc; left; exists c; split; try done; apply extends_refl. }
  destruct e as [[raw|] now rnd|id'| |input now| | | |k settled now
                |k [data|err]|k [[]|err]]; try done.
  - destruct (truthy (App.sanitize raw)); [|done]. split.
    + intros c' [Hc|[<-|[]]]%in_app_iff.
      * left. exists c'. split; [done|apply extends_refl].
      * right. by exists raw, now, rnd.
    + intros c Hc. left. exists c.
      split; [apply in_app_iff; by left|apply extends_refl].
  - destruct (_ && _); [|done]. split.
    + intros c' [Hc _]%filter_In. left. exists c'.
      split; [done|apply extends_refl].
    + intros c Hc. destruct (decide (id c = id')) as [Heq|Hne].
      * right. by exists id'.
      * left. exists c. split; [|apply extends_refl].
        apply filter_In. split; [done|].
        by apply negb_true_iff, bool_decide_eq_false.
  - destruct (sendable input w); [|done]. split.
    + intros c' Hc'. left. by eapply In_appended_extends.
    + intros c Hc. left. by apply appended_In_extends.
  - destruct (World.pending w !! k) as [[chat| |]|]; try done. split.
    + intros c' Hc'. left. by eapply In_appended_extends.
    + intros c Hc. left. by apply appended_In_extends.
Qed.

Lemma histories_only_grow_witness :
  exists c',
    In c'
      (conversations
         (World.app
            (World.step (World.Send (str " More? ") (str "t1"))
               returning_visit)))
    /\ extends sample_conversation c'.
Proof.
  destruct (histories_only_grow (H:=browser)
              (World.Send (str " More? ") (str "t1")) returning_visit)
    as [_ Hkept]; [reflexivity|].
  destruct (Hkept sample_conversation) as [Hc'|(id' & Hdel & _)].
  - by left.
  - exact Hc'.
  - discriminate Hdel.
Defined.

(** ** Index names *)

Lemma sanitize_safe (raw : jsstring) :
  truthy (App.sanitize raw) = true -> safe_name (App.sanitize raw) = true.
Proof.
  intros Ht. unfold safe_name. rewrite Ht. cbn.
  apply forallb_forall. by intros c [_ Hc]%filter_In.
Qed.

Lemma names_safe_step `{Platform} (e : World.Event) (w : World.State) :
  names_safe w -> names_safe (World.step e w).
Proof.
  intros [Hcs Hps].
  assert (forall k p chat_id r c,
             World.pending w !! k = Some p -> closure p = Some (chat_id, r) ->
             In c (conversations r) -> safe_name (name c) = true) as Hk.
  { intros k p chat_id r c Hp%lookup_In. by apply Hps. }
  split.
  - intros c'. rewrite conversations_step.
    destruct e as [[raw|] now rnd|id'| |input now| | | |k settled now
                  |k [data|err]|k [[]|err]]; try apply Hcs.
    + destruct (truthy (App.sanitize raw)) eqn:Ht; [|apply Hcs].
      intros [Hc|[<-|[]]]%in_app_iff; [by apply Hcs|].
      by apply sanitize_safe.
    + destruct (_ && _); [|apply Hcs]. intros [Hc _]%filter_In. by apply Hcs.
    + destruct (sendable input w); [|apply Hcs].
      intros (c & <- & Hc)%in_map_iff.
      destruct (bool_decide _);
        [change (safe_name (name c) = true)|]; by apply Hcs.
    + destruct (World.pending w !! k) as [[chat| |]|]; try apply Hcs.
      intros (c & <- & Hc)%in_map_iff.
      destruct (bool_decide _);
        [change (safe_name (name c) = true)|]; by apply Hcs.
    + destruct (World.pending w !! k) as [[|chat r|]|] eqn:Hp; try apply Hcs.
      intros (c & <- & Hc)%in_map_iff.
      destruct (bool_decide _);
        [change (safe_name (name c) = true)|];
        by eapply (Hk k _ chat r c Hp).
    + destruct (World.pending w !! k) as [[| |chat r]|] eqn:Hp; try apply Hcs.
      intros (c & <- & Hc)%in_map_iff.
      destruct (bool_decide _);
        [change (safe_name (name c) = true)|];
        by eapply (Hk k _ chat r c Hp).
  - intros p chat_id r c [Hp | [-> | [-> | ->]]]%In_pending_step Hcl Hc.
    + by eapply Hps.
    + done.
    + injection Hcl as <- <-. by apply Hcs.
    + injection Hcl as <- <-. by apply Hcs.
Qed.

Lemma names_safe_run `{Platform} (es : list World.Event) (w : World.State) :
  names_safe w -> names_safe (World.run es w).
Proof.
  revert w. induction es as [|e es IH]; intros w Hw; [done|].
  apply IH. by apply names_safe_step.
Qed.

Lemma names_safe_first_visit `{Platform} (now : N) :
  names_safe (World.first_visit now).
Proof. split; [|done]. by intros c [<-|[]]. Qed.

(** X15: names fit for an index stay so.  Suppose that every conversation
    of the collection, and every conversation of a render that an upload or
    a reset in flight closes over, has a name that is not empty and made of
    letters, digits, white space, hyphens and underscores; so it is on a
    first visit, where the only name is "default" and nothing is in flight.
    Then after any sequence of events every conversation of the collection
    has such a name, and every request that is then sent carries such a name
    or none.  The condition on the renders in flight cannot be dropped: a
    successful upload or reset sets the collection of its render. *)
Theorem index_names_stay_safe `{Platform} (es : list World.Event)
    (e : World.Event) (w0 : World.State) :
  (forall c, In c (conversations (World.app w0)) -> safe_name (name c) = true) ->
  (forall p chat_id r c,
      In p (World.pending w0) -> closure p = Some (chat_id, r) ->
      In c (conversations r) -> safe_name (name c) = true) ->
  let w := World.run es w0 in
  (forall c, In c (conversations (World.app w)) -> safe_name (name c) = true)
  /\ (forall r n,
        In r (World.requests e w) -> chat_name_of r = Some n ->
        safe_name n = true).
Proof.
  intros Hcs0 Hps0 w.
  destruct (names_safe_run es w0 (conj Hcs0 Hps0)) as [Hcs _]. fold w in Hcs.
  split; [done|]. intros r n. rewrite requests_step.
  assert (forall n', World.chatName (World.app w) = Some n' ->
                     safe_name n' = true) as Hname.
  { unfold World.chatName. intros n'.
    destruct (App.activeConversation _ _) as [c|] eqn:Hc; [|done].
    apply activeConversation_spec in Hc as [Hc _].
    intros [= <-]. by apply Hcs. }
  destruct e as [| | |input now| |[f|]|[|]| | |]; try done.
  - destruct (sendable input w); [|done]. intros [<-|[]]. apply Hname.
  - destruct (World.uploading w); [done|]. intros [<-|[]]. cbn.
    destruct (World.chatName (World.app w)) as [n'|]; [|done]. cbn.
    destruct (truthy n') eqn:Ht; [|done]. intros [= <-]. by apply Hname.
  - by intros [<-|[]].
Qed.

Lemma index_names_stay_safe_witness :
  safe_name (App.sanitize (str " Q1 (draft)! ")) = true.
Proof.
  destruct (index_names_stay_safe (H:=browser)
              [World.ClickNewChat (Some (str " Q1 (draft)! ")) 2000
                 (str "k3j9x2m1q")]
              (World.SelectFile (Some (str "report.pdf")))
              (World.first_visit 1000)) as [_ Hreq].
  - intros c [<-|[]]. reflexivity.
  - intros p chat_id r c [].
  - apply (Hreq (UploadRequest (str "report.pdf")
                   (str "chat-2000-k3j9x2m1q")
                   (Some (App.sanitize (str " Q1 (draft)! "))))).
    + left. vm_compute. reflexivity.
    + reflexivity.
Defined.

(** The condition on the renders in flight is needed: an upload is sent
    while a conversation with another kind of name is in the collection,
    that conversation is deleted, so that every name of the collection is
    fit, and the upload succeeds: the conversation is back, with its name. *)
Lemma deleted_name_comes_back :
  let w :=
    World.run [World.SelectFile (Some (str "more.pdf"));
               World.ClickDelete (id foreign_conversation)] foreign_visit in
  let w' := World.step (World.UploadSettled 0 (inl sample_upload)) w in
  conversations (World.app w) = [sample_conversation]
  /\ safe_name (name sample_conversation) = true
  /\ conversations (World.app w') = [foreign_conversation; sample_conversation]
  /\ safe_name (name foreign_conversation) = false.
Proof.
  intros w w'.
  split; [by vm_compute|]. split; [by vm_compute|].
  split; by vm_compute.
Qed.

(** ** The markdown renderer *)

Lemma after_literal_spec (p s a : jsstring) :
  MessageBubble.after_literal p s = Some a <-> s = p ++ a.
Proof.
  revert s. induction p as [|x p IH]; intros s; cbn.
  - split; [by intros [= ->]|by intros ->].
  - destruct s as [|y s]; [done|].
    destruct (N.eqb_spec x y) as [->|Hne].
    + rewrite IH. split; [by intros ->|by intros [= ->]].
    + split; [done|]. intros [= -> _]. done.
Qed.

Lemma word_prefix_spec (s : jsstring) :
  exists suf,
    s = MessageBubble.word_prefix s ++ suf
    /\ forallb MessageBubble.is_word (MessageBubble.word_prefix s) = true
    /\ word_ends suf.
Proof.
  induction s as [|c s (suf & Hs & Hw & Hsuf)]; [by exists []|]. cbn.
  destruct (MessageBubble.is_word c) eqn:Hc.
  - exists suf. cbn. rewrite Hc, Hw. by rewrite <- Hs.
  - by exists (c :: s).
Qed.

Lemma exec_language_cons (a : N) (rest : jsstring) :
  MessageBubble.exec_language (a :: rest)
  = match MessageBubble.after_literal (str "language-") (a :: rest) with
    | Some after =>
        match MessageBubble.word_prefix after with
        | [] => MessageBubble.exec_language rest
        | c :: w => Some (c :: w)
        end
    | None => MessageBubble.exec_language rest
    end.
Proof. reflexivity. Qed.

(** Whether the expression matches at the start of [s]. *)
Lemma matches_here (s : jsstring) :
  matches_after [] s
  <-> exists after c w,
        MessageBubble.after_literal (str "language-") s = Some after
        /\ MessageBubble.word_prefix after = c :: w.
Proof.
  split.
  - intros (c & rest & -> & Hc). exists (c :: rest), c.
    exists (MessageBubble.word_prefix rest). split.
    + by apply after_literal_spec.
    + cbn. by rewrite Hc.
  - intros (after & c & w & ->%after_literal_spec & Hw).
    destruct after as [|c' rest]; [done|]. cbn in Hw.
    destruct (MessageBubble.is_word c') eqn:Hc; [|done].
    by exists c', rest.
Qed.

Lemma matches_after_cons (a : N) (pre s : jsstring) :
  matches_after (a :: pre) (a :: s) <-> matches_after pre s.
Proof.
  split; intros (c & rest & Hs & Hc); exists c, rest.
  - by injection Hs as ->.
  - split; [|done]. by rewrite Hs.
Qed.

Lemma exec_language_spec (s : jsstring) :
  match MessageBubble.exec_language s with
  | Some w =>
      exists pre suf,
        s = pre ++ str "language-" ++ w ++ suf
        /\ truthy w = true
        /\ forallb MessageBubble.is_word w = true
        /\ word_ends suf
        /\ forall pre', matches_after pre' s ->
                        (length pre <= length pre')%nat
  | None => forall pre, ~ matches_after pre s
  end.
Proof.
  induction s as [|a s IH].
  - cbn. intros pre (c & rest & Hs & _). by destruct pre.
  - rewrite exec_language_cons.
    pose proof (matches_here (a :: s)) as Hhere.
    assert (~ matches_after [] (a :: s) ->
            match MessageBubble.exec_language s with
            | Some w =>
                exists pre suf,
                  a :: s = pre ++ str "language-" ++ w ++ suf
                  /\ truthy w = true
                  /\ forallb MessageBubble.is_word w = true
                  /\ word_ends suf
                  /\ forall pre', matches_after pre' (a :: s) ->
                                  (length pre <= length pre')%nat
            | None => forall pre, ~ matches_after pre (a :: s)
            end) as Hnext.
    { intros Hno. destruct (MessageBubble.exec_language s) as [w|].
      - destruct IH as (pre & suf & Hs & Hw & Hall & Hend & Hleft).
        exists (a :: pre), suf. repeat split; try done.
        + by rewrite Hs.
        + intros [|a' pre'] Hm; [done|].
          assert (a' = a) as ->.
          { destruct Hm as (c & rest & Hs' & _). by injection Hs'. }
          apply matches_after_cons, Hleft in Hm. cbn. lia.
      - intros [|a' pre] Hm; [done|].
        assert (a' = a) as ->.
        { destruct Hm as (c & rest & Hs' & _). by injection Hs'. }
        by apply matches_after_cons, IH in Hm. }
    destruct (MessageBubble.after_literal _ (a :: s)) as [after|] eqn:Hlit.
    + destruct (MessageBubble.word_prefix after) as [|c w] eqn:Hw.
      * apply Hnext. intros (after' & c & w & [= <-] & Hw')%Hhere.
        by rewrite Hw in Hw'.
      * destruct (word_prefix_spec after) as (suf & Hafter & Hall & Hend).
        rewrite Hw in Hafter, Hall.
        exists [], suf. repeat split; try done.
        -- apply after_literal_spec in Hlit. by rewrite Hlit, Hafter.
        -- intros pre' _. cbn. lia.
    + apply Hnext. by intros (after' & c & w & [=] & _)%Hhere.
Qed.

(** X16: what [/language-(\w+)/.exec] finds in a class name.  A result is
    the word that follows the leftmost [language-] that is followed by a
    word character: it is not empty, is made of word characters, is not
    followed by another one, and no match starts further left.  There is no
    result exactly when no [language-] of the class name is followed by a
    word character. *)
Theorem language_is_the_leftmost_word (s : jsstring) :
  (forall w,
      MessageBubble.exec_language s = Some w ->
      exists pre suf,
        s = pre ++ str "language-" ++ w ++ suf
        /\ truthy w = true
        /\ forallb MessageBubble.is_word w = true
        /\ word_ends suf
        /\ forall pre', matches_after pre' s ->
                        (length pre <= length pre')%nat)
  /\ (MessageBubble.exec_language s = None
      <-> forall pre, ~ matches_after pre s).
Proof.
  pose proof (exec_language_spec s) as Hs.
  destruct (MessageBubble.exec_language s) as [w|].
  - split; [by intros w' [= <-]|]. split; [done|]. intros Hno.
    destruct Hs as (pre & suf & Hs & Hw & Hall & _).
    destruct w as [|c w]; [done|]. cbn in Hall.
    apply andb_prop in Hall as [Hc _].
    destruct (Hno pre). exists c, (w ++ suf). split; [|done].
    by rewrite Hs, <- app_comm_cons.
  - split; [done|]. by split.
Qed.

Lemma language_is_the_leftmost_word_witness :
  exists pre suf,
    str "hljs language-js extra" = pre ++ str "language-" ++ str "js" ++ suf
    /\ truthy (str "js") = true
    /\ forallb MessageBubble.is_word (str "js") = true
    /\ word_ends suf
    /\ forall pre', matches_after pre' (str "hljs language-js extra") ->
                    (length pre <= length pre')%nat.
Proof.
  apply (language_is_the_leftmost_word (str "hljs language-js extra")).
  reflexivity.
Defined.

Lemma drop_final_newline_spec (children : jsstring) :
  (exists s, children = s ++ [10%N]
             /\ MessageBubble.drop_final_newline children = s)
  \/ ((forall s, children <> s ++ [10%N])
      /\ MessageBubble.drop_final_newline children = children).
Proof.
  unfold MessageBubble.drop_final_newline.
  pose proof (rev_involutive children) as Hinv.
  destruct (rev children) as [|c r]; cbn [rev] in Hinv; subst children.
  - right. split; [|done]. intros s Hs. by destruct s.
  - destruct (N.eqb_spec c 10) as [->|Hne].
    + left. by exists (rev r).
    + right. split; [|done].
      intros s Hs. apply app_inj_tail in Hs as [_ ->]. done.
Qed.

(** X17: the [code] component of the markdown renderer.  An inline span is
    never highlighted; a block is highlighted exactly when its class name
    names a language, under that language; the highlighted text is the text
    of the block without one final line feed, if it ends with one, and the
    text of a block that is not highlighted is unchanged. *)
Theorem code_is_highlighted_by_language (inline : bool)
    (className : option jsstring) (children : jsstring) :
  match MessageBubble.code inline className children with
  | MessageBubble.SyntaxHighlighter language text =>
      inline = false
      /\ (exists cls, className = Some cls
                      /\ MessageBubble.exec_language cls = Some language)
      /\ (children = text ++ [10%N]
          \/ (children = text /\ forall s, children <> s ++ [10%N]))
  | MessageBubble.PlainCode text =>
      text = children
      /\ (inline = true
          \/ forall cls, className = Some cls ->
                         MessageBubble.exec_language cls = None)
  end.
Proof.
  unfold MessageBubble.code.
  assert (or_else className [] = default [] className) as ->.
  { by destruct className as [[|c s]|]. }
  destruct (MessageBubble.exec_language (default [] className)) as [l|] eqn:Hl.
  - destruct inline; cbn.
    + split; [done|by left].
    + split; [done|]. split.
      * destruct className as [cls|]; [by exists cls|done].
      * destruct (drop_final_newline_spec children)
          as [(s & Hs & ->)|[Hno ->]]; [by left|by right].
  - split; [done|]. right. by intros cls ->.
Qed.

(** ** The list of bubbles *)

Lemma bubble_key_inj (t1 t2 : jsstring) (i j : nat) :
  bubble_key t1 i = bubble_key t2 j -> t1 = t2 /\ i = j.
Proof.
  unfold bubble_key. change (str "-") with [45%N]. intros Heq.
  apply (f_equal (@rev N)) in Heq.
  rewrite !rev_app_distr in Heq. cbn [rev app] in Heq.
  rewrite <- !app_assoc in Heq. cbn [app] in Heq.
  apply split_at_hyphen in Heq as [Hd Ht].
  - split.
    + by rewrite <- (rev_involutive t1), Ht, rev_involutive.
    + apply Nat2N.inj, decimal_inj.
      by rewrite <- (rev_involutive (decimal _)), Hd, rev_involutive.
  - apply forallb_forall. intros c Hc%in_rev.
    by eapply forallb_forall in Hc; [|apply digits_all_digits].
  - apply forallb_forall. intros c Hc%in_rev.
    by eapply forallb_forall in Hc; [|apply digits_all_digits].
Qed.

(** X18: the keys under which [ChatWindow] renders its bubbles are pairwise
    distinct, whatever the timestamps of the messages are (two messages may
    carry the same one), and there is one bubble per message. *)
Theorem bubble_keys_are_distinct (messages : list Message) :
  NoDup (fst <$> Jsx.bubbles messages)
  /\ length (Jsx.bubbles messages) = length messages.
Proof.
  split; [|apply length_imap].
  apply NoDup_alt. intros i j k. unfold Jsx.bubbles.
  rewrite !list_lookup_fmap, !list_lookup_imap.
  destruct (messages !! i) as [mi|]; [|done].
  destruct (messages !! j) as [mj|]; [|done].
  cbn. intros [= <-] [= Heq].
  by apply (bubble_key_inj (timestamp mj) (timestamp mi)) in Heq as [_ ->].
Qed.

(** X19: the Send button is disabled exactly when [handleSend] would make
    no call, and then the Enter key makes none either: the guard of the
    handler and the attribute of the button agree. *)
Theorem send_button_agrees_with_guard (chatId : jsstring)
    (chatName : option jsstring) (hasDocuments : bool)
    (onAddMessage : option (jsstring -> Message -> M unit))
    (input : jsstring) (isLoading : bool) (now : jsstring) :
  (Jsx.send_disabled input isLoading hasDocuments = true
   <-> calls (ChatWindow.handleSend chatId chatName hasDocuments onAddMessage
                input isLoading now) = [])
  /\ (forall key shiftKey,
        Jsx.send_disabled input isLoading hasDocuments = true ->
        calls (ChatWindow.handleKeyPress chatId chatName hasDocuments
                 onAddMessage input isLoading key shiftKey now) = [])
  /\ (forall shiftKey,
        ChatWindow.handleKeyPress chatId chatName hasDocuments onAddMessage
          input isLoading (str "Enter") shiftKey now
        = if shiftKey then ret tt
          else ChatWindow.handleSend chatId chatName hasDocuments onAddMessage
                 input isLoading now).
Proof.
  assert (Jsx.send_disabled input isLoading hasDocuments = true
          <-> calls (ChatWindow.handleSend chatId chatName hasDocuments
                       onAddMessage input isLoading now) = []) as Hiff.
  { unfold Jsx.send_disabled, ChatWindow.handleSend.
    destruct isLoading, (truthy (trim input)), hasDocuments; cbn; try done.
    split; [done|]. unfold ChatWindow.notify.
    destruct onAddMessage as [cb|]; cbn; [|done].
    by destruct (cb chatId _) as [cs [[]|err]]. }
  split; [done|]. split.
  - intros key shiftKey Hd. unfold ChatWindow.handleKeyPress.
    destruct (_ && _); [by apply Hiff|done].
  - intros shiftKey. unfold ChatWindow.handleKeyPress.
    rewrite bool_decide_eq_true_2 by done. by destruct shiftKey.
Qed.



(** X21: the Upload button of the full variant.  Choosing a file sends
    nothing there; the button is enabled only when a file is chosen and no
    upload is in flight, and [handleUpload] then raises the uploading flag
    and sends one request, with that file; without a file it sends nothing
    and sets the error text. *)
Theorem upload_button_sends_the_chosen_file (chatId : jsstring)
    (chatName : option jsstring) (file selectedFile : option File)
    (uploading : bool) :
  flat_map World.request
    (calls (FileUploader.handleFileChange chatId chatName FileUploader.full
              selectedFile)) = []
  /\ (Jsx.upload_disabled file uploading = false ->
      exists f,
        file = Some f
        /\ calls (FileUploader.handleUpload chatId chatName file)
           = [SetUploading true; SetMessage []; SetError [];
              Post (UploadRequest f chatId (form_chat_name chatName))])
  /\ (file = None ->
      calls (FileUploader.handleUpload chatId chatName file)
      = [SetError (str "Please select a file first")]).
Proof.
  split; [by destruct selectedFile|]. split.
  - destruct file as [f|]; [|done]. intros _. by exists f.
  - by intros ->.
Qed.

Lemma upload_button_sends_the_chosen_file_witness :
  exists f,
    Some (str "report.pdf") = Some f
    /\ calls (FileUploader.handleUpload (id sample_conversation)
                (Some (str "Report 1")) (Some (str "report.pdf")))
       = [SetUploading true; SetMessage []; SetError [];
          Post (UploadRequest f (id sample_conversation)
                  (form_chat_name (Some (str "Report 1"))))].
Proof.
  apply (upload_button_sends_the_chosen_file (id sample_conversation)
           (Some (str "Report 1")) (Some (str "report.pdf")) None false).
  reflexivity.
Defined.
